(** * ClusterFoamTree: gesture translator and clustering orchestration

    A shallow embedding of [src/components/ClusterFoamTree.vue].

    JavaScript numbers are IEEE 754 binary64 values, which is what Rocq's
    primitive [float] is.  A JavaScript [Map] iterates in insertion order and
    the handlers read "the first two values", so a [Map] is an association
    list that keeps insertion order.  The handlers mutate module-level
    variables and call [foamtree.value.trigger]; here a handler takes the
    state and returns the new state together with the triggers it issued, in
    order.  [Math.hypot] is the JavaScript engine's: the translator is
    defined over any engine that meets what ECMAScript fixes of it, and
    V8's algorithm is such an engine, under which the concrete runs are
    evaluated. *)

From Stdlib Require Import ZArith List Bool Floats Lia.
From Stdlib Require Uint63.
From Stdlib Require String DecimalString DecimalNat.
Import ListNotations.

#[local] Set Warnings "-inexact-float".

Local Open Scope Z_scope.

(** ** Numbers *)

Module JS.

Definition number := float.

(** [Math.hypot(dx, dy)] is a builtin of the JavaScript engine, not code of
    the component.  ECMAScript fixes three cases (an infinite argument gives
    [+Infinity]; otherwise a NaN argument gives NaN; otherwise, when every
    argument is [+0] or [-0], the result is [+0]) and leaves every other
    result to the engine, as an "implementation-approximated" value.  An
    engine is therefore any function with these three properties, and the
    translator is defined over an arbitrary engine. *)
Class Engine := {
  Math_hypot : number -> number -> number;
  Math_hypot_infinite (dx dy : number) :
    is_infinity dx || is_infinity dy = true -> Math_hypot dx dy = infinity;
  Math_hypot_nan (dx dy : number) :
    is_infinity dx || is_infinity dy = false ->
    is_nan dx || is_nan dy = true -> Math_hypot dx dy = nan;
  Math_hypot_zero (dx dy : number) :
    is_zero dx && is_zero dy = true -> Math_hypot dx dy = 0%float
}.

Arguments Math_hypot {Engine} (dx dy)%_float.

(** The [Math.hypot] of V8 (Chrome, Node.js), for two arguments: it takes
    the largest magnitude [max] among the arguments that are not NaN, answers
    the three fixed cases from it, and otherwise adds the squares of the
    magnitudes divided by [max] with Kahan's compensated summation and
    returns the square root of the sum times [max]. *)
Definition larger (max v : number) : number :=
  if is_nan v then max
  else if (max <? abs v)%float then abs v else max.

Definition kahan (max : number) (acc : number * number) (v : number)
    : number * number :=
  let '(sum, compensation) := acc in
  let n := (v / max)%float in
  let summand := (n * n - compensation)%float in
  let preliminary := (sum + summand)%float in
  (preliminary, (preliminary - sum - summand)%float).

Definition V8_hypot (dx dy : number) : number :=
  let oneArgIsNaN := is_nan dx || is_nan dy in
  let max := larger (larger 0%float dx) dy in
  if (max =? infinity)%float then infinity
  else if oneArgIsNaN then nan
  else if (max =? 0)%float then 0%float
  else
    let '(sum, _) :=
      kahan max (kahan max (0%float, 0%float) (abs dx)) (abs dy) in
    (sqrt sum * max)%float.

Arguments V8_hypot (dx dy)%_float.

(** [Math.max(a, b)] and [Math.min(a, b)]: NaN if either is NaN, and [+0] is
    larger than [-0]. *)
Definition Math_max (a b : number) : number :=
  if is_nan a || is_nan b then nan
  else if (a <? b)%float then b
  else if (b <? a)%float then a
  else if get_sign a then b else a.

Definition Math_min (a b : number) : number :=
  if is_nan a || is_nan b then nan
  else if (a <? b)%float then a
  else if (b <? a)%float then b
  else if get_sign a then a else b.

(** [a !== b] on numbers. *)
Definition strict_neq (a b : number) : bool := negb (a =? b)%float.

(** ** [Map<number, V>] with insertion order *)

Section MapOps.
Context {V : Type}.

Definition Map := list (Z * V).

Fixpoint get (k : Z) (m : Map) : option V :=
  match m with
  | [] => None
  | (k', v) :: m' => if k' =? k then Some v else get k m'
  end.

Definition has (k : Z) (m : Map) : bool :=
  match get k m with Some _ => true | None => false end.

(** [set] overwrites the value of a present key where it stands and
    appends a new key at the end. *)
Fixpoint set (k : Z) (v : V) (m : Map) : Map :=
  match m with
  | [] => [(k, v)]
  | (k', v') :: m' =>
      if k' =? k then (k', v) :: m' else (k', v') :: set k v m'
  end.

Fixpoint delete (k : Z) (m : Map) : Map :=
  match m with
  | [] => []
  | (k', v') :: m' =>
      if k' =? k then delete k m' else (k', v') :: delete k m'
  end.

Definition size (m : Map) : nat := length m.

Definition values (m : Map) : list V := map snd m.

Definition keys (m : Map) : list Z := map fst m.
End MapOps.

Arguments Map : clear implicits.

End JS.

(** ** The gesture translator *)

Module Gesture.
Import JS.

Record Point := { x : number; y : number }.

(** [PointerEvent.pointerType] *)
Inductive PointerType := mouse | touch | pen.

Definition is_mouse (t : PointerType) : bool :=
  match t with mouse => true | _ => false end.

(** The values of the [pointers] map: [{ x, y, type }]. *)
Record Tracked := { px : number; py : number; type : PointerType }.

Record PointerEvent := {
  pointerId : Z;
  pointerType : PointerType;
  button : Z;
  clientX : number;
  clientY : number
}.

Record WheelEvent := {
  wClientX : number;
  wClientY : number;
  deltaY : number
}.

(** What [getBoundingClientRect()] of the container is read for. *)
Record DOMRect := { left : number; top : number }.

(** The gesture verbs handed to [foamtree.trigger]. *)
Inductive Verb :=
| click | dragstart | drag | dragend
| transformstart | transform | transformend.

(** The object passed along: [{ x, y }], with [scale] and
    [secondary: true] where the handler adds them. *)
Record Payload := {
  at_x : number;
  at_y : number;
  scale : option number;
  secondary : bool
}.

Record Trigger := { verb : Verb; payload : Payload }.

Definition plain (p : Point) : Payload :=
  {| at_x := x p; at_y := y p; scale := None; secondary := false |}.

Definition second (p : Point) : Payload :=
  {| at_x := x p; at_y := y p; scale := None; secondary := true |}.

Definition scaled (p : Point) (sc : number) : Payload :=
  {| at_x := x p; at_y := y p; scale := Some sc; secondary := true |}.

Definition trigger (v : Verb) (p : Payload) : Trigger :=
  {| verb := v; payload := p |}.

Definition TAP_TOLERANCE : number := 6%float.

(** The component's refs and the module-level gesture variables. *)
Record State := {
  foamtree : bool;              (* [foamtree.value] is not null *)
  container : option DOMRect;   (* [container.value] and its bounds *)
  pointers : Map Tracked;
  startPos : Map Point;
  baseDist : number;
  dragging : bool;
  transforming : bool
}.

Definition with_maps (ps : Map Tracked) (sp : Map Point) (s : State) : State :=
  {| foamtree := foamtree s; container := container s;
     pointers := ps; startPos := sp;
     baseDist := baseDist s; dragging := dragging s;
     transforming := transforming s |}.

Definition with_pointers (ps : Map Tracked) (s : State) : State :=
  with_maps ps (startPos s) s.

Definition with_baseDist (d : number) (s : State) : State :=
  {| foamtree := foamtree s; container := container s;
     pointers := pointers s; startPos := startPos s;
     baseDist := d; dragging := dragging s;
     transforming := transforming s |}.

Definition with_dragging (b : bool) (s : State) : State :=
  {| foamtree := foamtree s; container := container s;
     pointers := pointers s; startPos := startPos s;
     baseDist := baseDist s; dragging := b;
     transforming := transforming s |}.

Definition with_transforming (b : bool) (s : State) : State :=
  {| foamtree := foamtree s; container := container s;
     pointers := pointers s; startPos := startPos s;
     baseDist := baseDist s; dragging := dragging s;
     transforming := b |}.

Definition rel_at (s : State) (cx cy : number) : Point :=
  match container s with
  | None => {| x := 0%float; y := 0%float |}
  | Some r => {| x := (cx - left r)%float; y := (cy - top r)%float |}
  end.

Definition rel (s : State) (ev : PointerEvent) : Point :=
  rel_at s (clientX ev) (clientY ev).

Definition relW (s : State) (ev : WheelEvent) : Point :=
  rel_at s (wClientX ev) (wClientY ev).

(** From here on the definitions depend on the engine's [Math.hypot]. *)
Section WithEngine.
Context {engine : Engine}.

Definition dist (a b : Point) : number :=
  let dx := (x a - x b)%float in
  let dy := (y a - y b)%float in
  Math_hypot dx dy.

Definition xy (t : Tracked) : Point := {| x := px t; y := py t |}.

Definition track (p : Point) (t : PointerType) : Tracked :=
  {| px := x p; py := y p; type := t |}.

(** A handler's result: the state it leaves and the triggers it issued. *)
Definition Outcome := (State * list Trigger)%type.

Definition onPointerDown (ev : PointerEvent) (s : State) : Outcome :=
  if negb (foamtree s) then (s, [])
  else if is_mouse (pointerType ev) && negb (button ev =? 0) then (s, [])
  else
    let p := rel s ev in
    let s1 :=
      with_maps (set (pointerId ev) (track p (pointerType ev)) (pointers s))
                (set (pointerId ev) p (startPos s)) s in
    if (2 <=? size (pointers s1))%nat then
      match values (pointers s1) with
      | aRaw :: bRaw :: _ =>
          let a := xy aRaw in
          let b := xy bRaw in
          (with_transforming true (with_baseDist (dist a b) s1),
           [trigger transformstart (second a)])
      | _ => (s1, [])   (* no second value: the destructuring read throws *)
      end
    else (with_dragging false s1, []).

Definition onPointerMove (ev : PointerEvent) (s : State) : Outcome :=
  if negb (foamtree s) then (s, [])
  else if negb (has (pointerId ev) (pointers s)) then (s, [])
  else
    let p := rel s ev in
    match get (pointerId ev) (pointers s) with
    | None => (s, [])
    | Some meta =>
        let s1 := with_pointers (set (pointerId ev) (track p (type meta)) (pointers s)) s in
        if (size (pointers s1) =? 1)%nat && negb (transforming s1) then
          match get (pointerId ev) (startPos s1) with
          | None => (s1, [])   (* no start position: reading [s.x] throws *)
          | Some s0 =>
              let start := negb (dragging s1) && (TAP_TOLERANCE <? dist p s0)%float in
              let s2 := if start then with_dragging true s1 else s1 in
              (s2,
               (if start then [trigger dragstart (plain p)] else [])
               ++ (if dragging s2 then [trigger drag (plain p)] else []))
          end
        else if (size (pointers s1) =? 2)%nat then
          match values (pointers s1) with
          | aRaw :: bRaw :: _ =>
              let a := xy aRaw in
              let b := xy bRaw in
              let sc := (dist a b / baseDist s1)%float in
              (s1, [trigger transform (scaled a sc)])
          | _ => (s1, [])
          end
        else (s1, [])
    end.

Definition onPointerUp (ev : PointerEvent) (s : State) : Outcome :=
  if negb (foamtree s) then (s, [])
  else
    let p := rel s ev in
    let t1 := if transforming s then [trigger transformend (plain p)] else [] in
    let t2 := if dragging s then [trigger dragend (plain p)] else [] in
    let s1 := with_maps (delete (pointerId ev) (pointers s))
                        (delete (pointerId ev) (startPos s)) s in
    let t3 := if negb (dragging s1) && negb (transforming s1)
              then [trigger click (plain p)] else [] in
    let s2 := if (size (pointers s1) =? 0)%nat
              then with_transforming false (with_dragging false s1)
              else s1 in
    (s2, t1 ++ t2 ++ t3).

Definition onWheel (ev : WheelEvent) (s : State) : Outcome :=
  if negb (foamtree s) then (s, [])
  else
    let p := relW s ev in
    let sc := if (deltaY ev <? 0)%float then 1.03%float else 0.97%float in
    (s, [trigger transformstart (second p);
         trigger transform (scaled p sc);
         trigger transformend (second p)]).

(** The listeners [onMounted] attaches to the container. *)
Inductive DomEvent :=
| pointerdown (ev : PointerEvent)
| pointermove (ev : PointerEvent)
| pointerup (ev : PointerEvent)
| pointercancel (ev : PointerEvent)
| wheel (ev : WheelEvent).

Definition dispatch (e : DomEvent) (s : State) : Outcome :=
  match e with
  | pointerdown ev => onPointerDown ev s
  | pointermove ev => onPointerMove ev s
  | pointerup ev => onPointerUp ev s
  | pointercancel ev => onPointerUp ev s
  | wheel ev => onWheel ev s
  end.

(** Events are delivered one after the other; the triggers accumulate. *)
Fixpoint run (es : list DomEvent) (s : State) : Outcome :=
  match es with
  | [] => (s, [])
  | e :: es' =>
      let (s1, t1) := dispatch e s in
      let (s2, t2) := run es' s1 in
      (s2, t1 ++ t2)
  end.

(** The state in which [onMounted] leaves the translator once the FoamTree
    instance exists and the listeners are attached to a container with
    bounds [r]. *)
Definition mounted (r : DOMRect) : State :=
  {| foamtree := true; container := Some r;
     pointers := []; startPos := [];
     baseDist := 0%float; dragging := false; transforming := false |}.

Definition reachable (s : State) : Prop :=
  exists r es, fst (run es (mounted r)) = s.

(** What every handler keeps true: the FoamTree instance stays, the two maps
    hold the same keys in the same order, two active pointers mean a
    transform is on, and no active pointer means both flags are down. *)
Record consistent (s : State) : Prop := {
  c_foamtree : foamtree s = true;
  c_keys : keys (pointers s) = keys (startPos s);
  c_two : (2 <= size (pointers s))%nat -> transforming s = true;
  c_idle : size (pointers s) = 0%nat ->
           dragging s = false /\ transforming s = false
}.

(** *** Vocabulary for statements about the issued triggers *)

Definition Verb_eq_dec (a b : Verb) : {a = b} + {a <> b}.
Proof. decide equality. Defined.

Definition verb_eqb (a b : Verb) : bool :=
  if Verb_eq_dec a b then true else false.

Definition verbs (t : list Trigger) : list Verb := map verb t.

Definition count (v : Verb) (t : list Trigger) : nat :=
  count_occ Verb_eq_dec (verbs t) v.

(** Every trigger with verb [b] comes after some trigger with verb [a]. *)
Definition precedes (a b : Verb) (t : list Trigger) : Prop :=
  forall t1 e t2, t = t1 ++ e :: t2 -> verb e = b ->
    exists e', In e' t1 /\ verb e' = a.

(** The same, decided by one pass that remembers whether [a] was seen. *)
Fixpoint guarded (a b : Verb) (seen : bool) (vs : list Verb) : bool :=
  match vs with
  | [] => true
  | v :: vs' =>
      (negb (verb_eqb v b) || seen)
      && guarded a b (seen || verb_eqb v a) vs'
  end.

Definition seen_in (a : Verb) (seen : bool) (vs : list Verb) : bool :=
  seen || existsb (fun v => verb_eqb v a) vs.

(** A pointer-down the handler does not drop at its button test. *)
Definition accepted (ev : PointerEvent) : bool :=
  negb (is_mouse (pointerType ev) && negb (button ev =? 0)).

(** [dist(p, s) > TAP_TOLERANCE] *)
Definition beyond (p s0 : Point) : bool := (TAP_TOLERANCE <? dist p s0)%float.

(** One tracked pointer [id] at [p], which went down at [p0]. *)
Definition single (r : DOMRect) (id : Z) (ty : PointerType) (p p0 : Point)
    (bd : number) (dg tf : bool) : State :=
  {| foamtree := true; container := Some r;
     pointers := [(id, track p ty)]; startPos := [(id, p0)];
     baseDist := bd; dragging := dg; transforming := tf |}.

(** No tracked pointer, flags down; [baseDist] keeps its last value. *)
Definition idle (r : DOMRect) (bd : number) : State :=
  {| foamtree := true; container := Some r;
     pointers := []; startPos := [];
     baseDist := bd; dragging := false; transforming := false |}.

(** What the moves of a lone pointer trigger, from the positions [ps] they
    report, the start position [p0] and the [dragging] flag [dg]. *)
Fixpoint drag_triggers (dg : bool) (p0 : Point) (ps : list Point)
    : list Trigger :=
  match ps with
  | [] => []
  | p :: ps' =>
      (if negb dg && beyond p p0 then [trigger dragstart (plain p)] else [])
      ++ (if dg || beyond p p0 then [trigger drag (plain p)] else [])
      ++ drag_triggers (dg || beyond p p0) p0 ps'
  end.

Definition dragged (dg : bool) (p0 : Point) (ps : list Point) : bool :=
  dg || existsb (fun p => beyond p p0) ps.

(** The two tracked values once the move [m] is recorded, when [k1] and
    [k2] are the tracked pointers, in the map's order. *)
Definition pair_after (s : State) (m : PointerEvent) (k1 : Z)
    (t1 t2 : Tracked) : Tracked * Tracked :=
  if pointerId m =? k1 then (track (rel s m) (type t1), t2)
  else (t1, track (rel s m) (type t2)).


(** A [pointerdown] that passes the button test: the only event at which
    [baseDist] can be assigned. *)
Definition records (e : DomEvent) : bool :=
  match e with
  | pointerdown ev => accepted ev
  | _ => false
  end.


(** The pointer a release reports: the listeners for [pointerup] and
    [pointercancel] are the same function. *)
Definition released (e : DomEvent) : option Z :=
  match e with
  | pointerup ev | pointercancel ev => Some (pointerId ev)
  | _ => None
  end.

Definition cancel_as_up (e : DomEvent) : DomEvent :=
  match e with
  | pointercancel ev => pointerup ev
  | _ => e
  end.

(** The data model's invariant, in its two halves as worded. *)
Definition transforming_iff_two (s : State) : Prop :=
  transforming s = true <-> (2 <= size (pointers s))%nat.

Definition dragging_only_single_moved (s : State) : Prop :=
  dragging s = true ->
  exists k t s0,
    pointers s = [(k, t)] /\ get k (startPos s) = Some s0
    /\ beyond (xy t) s0 = true.

(** Concrete events used in the examples below. *)
Definition origin : DOMRect := {| left := 0%float; top := 0%float |}.

Definition ptr (id : Z) (t : PointerType) (b : Z) (cx cy : number) : PointerEvent :=
  {| pointerId := id; pointerType := t; button := b;
     clientX := cx; clientY := cy |}.

End WithEngine.

Arguments single r id ty p p0 bd%_float dg tf.
Arguments idle r bd%_float.
Arguments ptr id t b (cx cy)%_float.

End Gesture.

(** ** Clustering orchestration *)

Module Clustering.
Import JS.

Definition Uint8Array := list Byte.byte.

Record Cluster := {
  clusterIndex : nat;
  indices : list nat;
  mergedVector : Uint8Array;
  score : nat
}.

(** [c.length] as a number. *)
Definition length_number {A : Type} (l : list A) : number :=
  of_uint63 (Uint63.of_Z (Z.of_nat (length l))).

Section WithLibrary.

(** What [@andorsearch/qry-codes] supplies. *)
Variable SimilarityGraph : Type.
Variable edgeScores : SimilarityGraph -> list (list number).
Variable buildSimilarityGraph : list Uint8Array -> SimilarityGraph.
Variable clusterByThreshold : SimilarityGraph -> number -> list (list nat).
Variable mergeVectors : list (option Uint8Array) -> Uint8Array.

(** The props the clustering reads.  [minSliderSim] is declared with a
    graph parameter and called without an argument. *)
Record Props := {
  vectors : list Uint8Array;
  minClusterSim : number;
  minDocsPerCluster : number;
  minSliderSim : option SimilarityGraph -> number
}.

Record State := {
  sliderSim : number;
  minFoundSim : number;
  maxFoundSim : number;
  clusters : list Cluster;
  simGraph : option SimilarityGraph
}.

(** The component's emitted notification. *)
Inductive Emit :=
| similarityGraphBuilt (g : SimilarityGraph).

(** The two nested [forEach] loops over [edgeScores], on [(max, min)]. *)
Definition scanScores (g : SimilarityGraph) : number * number :=
  fold_left
    (fun acc cluster =>
       fold_left
         (fun '(mx, mn) sc => (Math_max sc mx, Math_min sc mn))
         cluster acc)
    (edgeScores g) (0%float, 1%float).

(** [sort((a, b) => b.score - a.score)]: descending by score, stable. *)
Fixpoint insertByScore (c : Cluster) (l : list Cluster) : list Cluster :=
  match l with
  | [] => [c]
  | d :: l' =>
      if (score d <=? score c)%nat then c :: l
      else d :: insertByScore c l'
  end.

Definition sortByScore (l : list Cluster) : list Cluster :=
  fold_right insertByScore [] l.

Fixpoint buildClusters (p : Props) (clusterIndex : nat)
    (clusteredIDs : list (list nat)) : list Cluster :=
  match clusteredIDs with
  | [] => []
  | clusterIndices :: rest =>
      let clusterEmbeddings :=
        map (fun i => nth_error (vectors p) i) clusterIndices in
      {| clusterIndex := clusterIndex;
         indices := clusterIndices;
         mergedVector := mergeVectors clusterEmbeddings;
         score := length clusterIndices |}
      :: buildClusters p (S clusterIndex) rest
  end.

(** The part of [clusterResults] after the graph is at hand. *)
Definition computeClusters (p : Props) (g : SimilarityGraph)
    (threshold : number) : list Cluster :=
  let clusteredIDs := clusterByThreshold g threshold in
  let clusteredIDs :=
    filter (fun c => (minDocsPerCluster p <=? length_number c)%float)
           clusteredIDs in
  sortByScore (buildClusters p 0 clusteredIDs).

Definition clusterResults (p : Props) (s : State) : State * list Emit :=
  let '(s1, g, out) :=
    match simGraph s with
    | None =>
        let g := buildSimilarityGraph (vectors p) in
        let '(max, min) := scanScores g in
        ({| sliderSim := sliderSim s;
            minFoundSim := Math_max (minSliderSim p None) min;
            maxFoundSim := max;
            clusters := clusters s;
            simGraph := Some g |},
         g, [similarityGraphBuilt g])
    | Some g => (s, g, [])
    end in
  ({| sliderSim := sliderSim s1;
      minFoundSim := minFoundSim s1;
      maxFoundSim := maxFoundSim s1;
      clusters := computeClusters p g (sliderSim s1);
      simGraph := simGraph s1 |}, out).

(** The state [s] with its cluster list recomputed from the graph [g]. *)
Definition reclustered (p : Props) (g : SimilarityGraph) (s : State) : State :=
  {| sliderSim := sliderSim s;
     minFoundSim := minFoundSim s;
     maxFoundSim := maxFoundSim s;
     clusters := computeClusters p g (sliderSim s);
     simGraph := Some g |}.

(** The state set up by [<script setup>]. *)
Definition setup (p : Props) : State :=
  {| sliderSim := minClusterSim p;
     minFoundSim := 0%float;
     maxFoundSim := 1%float;
     clusters := [];
     simGraph := None |}.

Definition onMounted (p : Props) (s : State) : State * list Emit :=
  clusterResults p s.

(** The callback of [watch(sliderSim, ...)]. *)
Definition sliderWatcher (p : Props) (s : State) : State * list Emit :=
  if strict_neq (sliderSim s) (minClusterSim p) then clusterResults p s
  else (s, []).

(** The slider's [v-model] writes [sliderSim]; the watcher runs when the
    written value is a different one. *)
Definition moveSlider (p : Props) (v : number) (s : State)
    : State * list Emit :=
  if Leibniz.eqb v (sliderSim s) then (s, [])
  else
    sliderWatcher p
      {| sliderSim := v;
         minFoundSim := minFoundSim s;
         maxFoundSim := maxFoundSim s;
         clusters := clusters s;
         simGraph := simGraph s |}.

Fixpoint moveSliders (p : Props) (vs : list number) (s : State)
    : State * list Emit :=
  match vs with
  | [] => (s, [])
  | v :: vs' =>
      let (s1, o1) := moveSlider p v s in
      let (s2, o2) := moveSliders p vs' s1 in
      (s2, o1 ++ o2)
  end.

End WithLibrary.

End Clustering.

(** ** The data object handed to FoamTree, and what FoamTree calls back *)

Module FoamData.
Import JS Clustering.
Import String.

#[local] Set Warnings "-register-all".

(** An array index inside a template literal: its decimal digits. *)
Definition index_string (n : nat) : string :=
  DecimalString.NilEmpty.string_of_uint (Nat.to_uint n).

(** A FoamTree group object.  Top-level groups carry [weight], [groups] and,
    for a cluster of at most one document, [docID]; their children carry
    [vectorIndex] and [elementNumber].  [None] is a property the object does
    not have, or that is [undefined]. *)
Inductive Group := {
  id : string;
  label : string;
  weight : option number;
  clusterIndex : option nat;
  groups : option (list Group);
  docID : option nat;
  vectorIndex : option nat;
  elementNumber : option nat
}.

Section WithLabellers.

Variable clusterLabeller : Cluster -> string.
Variable itemLabeller : nat -> string.

(** [cluster.indices.map((vectorIndex, elementNumber) => ...)] for the
    cluster at position [i], from element number [n] on. *)
Fixpoint buildItems (i n : nat) (indices : list nat) : list Group :=
  match indices with
  | [] => []
  | v :: rest =>
      {| id := append "cluster-"
                 (append (index_string i)
                    (append "-item-" (index_string n)));
         label := itemLabeller v;
         weight := None;
         clusterIndex := Some i;
         groups := None;
         docID := None;
         vectorIndex := Some v;
         elementNumber := Some n |}
      :: buildItems i (S n) rest
  end.

Definition buildGroup (i : nat) (cluster : Cluster) : Group :=
  let n := List.length (indices cluster) in
  {| id := append "cluster-" (index_string i);
     label := clusterLabeller cluster;
     weight := Some (if (n =? 1)%nat then 0.1%float
                     else length_number (indices cluster));
     clusterIndex := Some i;
     groups := Some (if (1 <? n)%nat
                     then buildItems i 0 (indices cluster) else []);
     docID := if (1 <? n)%nat then None else hd_error (indices cluster);
     vectorIndex := None;
     elementNumber := None |}.

Fixpoint buildGroups (i : nat) (clusters : list Cluster) : list Group :=
  match clusters with
  | [] => []
  | cluster :: rest => buildGroup i cluster :: buildGroups (S i) rest
  end.

(** The [groups] array of the object [buildFoamData] returns. *)
Definition buildFoamData (clusters : list Cluster) : list Group :=
  buildGroups 0 clusters.

End WithLabellers.

(** The component's [clusterClicked] notification. *)
Inductive Emit :=
| clusterClicked (clusterIndex : option nat) (label : string)
    (vectorIndices : list (option nat)).

(** What the [groupSelectionChanged] listener does: nothing, [ft.expose([])],
    or [ft.expose(id)] with the notification it emits once the exposure is
    done. *)
Inductive Selection :=
| nothingDone
| exposeNone
| exposeThenEmit (id : string) (e : Emit).

(** The listener, from whether [foamtree.value] is set, the [groups] of
    [ft.get("exposure")] and [info.groups]. *)
Definition onGroupSelectionChanged (foamtree : bool)
    (exposed : option (list Group)) (info : list Group) : Selection :=
  if negb foamtree then nothingDone
  else
    match info with
    | [] => exposeNone
    | group :: _ =>
        let same :=
          match exposed with
          | Some (current :: _) => String.eqb (id group) (id current)
          | _ => false
          end in
        if same then exposeNone
        else
          exposeThenEmit (id group)
            (match groups group with
             | Some gs =>
                 if (1 <? List.length gs)%nat
                 then clusterClicked (clusterIndex group) (label group)
                        (map vectorIndex gs)
                 else clusterClicked (clusterIndex group) (label group)
                        [docID group]
             | None =>
                 clusterClicked (clusterIndex group) (label group)
                   [docID group]
             end)
    end.

(** The colour FoamTree hands to the decorator, and the variables the
    decorator may set. *)
Record Colour := { h : number; s : number; l : number; a : number }.

Record Vars := { labelColor : option string; groupColor : option Colour }.

Definition groupColorDecorator (g : Group) (vars : Vars) : Vars :=
  let isSingletonCluster :=
    (match groups g with
     | None => true
     | Some gs => (List.length gs =? 0)%nat
     end)
    && (match clusterIndex g with Some _ => true | None => false end) in
  if isSingletonCluster then
    {| labelColor := Some "rgba(0,0,0,0.55)"%string;
       groupColor :=
         match groupColor vars with
         | Some c =>
             Some {| h := h c; s := s c;
                     l := Math_min 100%float (l c + 35)%float;
                     a := a c |}
         | None => None
         end |}
  else vars.

(** Every [id] of the data object: each group's, then its children's. *)
Definition children (g : Group) : list Group :=
  match groups g with Some gs => gs | None => [] end.

Definition all_ids (gs : list Group) : list string :=
  flat_map (fun g => id g :: map id (children g)) gs.

(** Two clusters and two labellers, for the examples. *)
Definition exampleClusters : list Cluster :=
  [ {| Clustering.clusterIndex := 1; indices := [3; 5]%nat;
       mergedVector := []; score := 2 |};
    {| Clustering.clusterIndex := 0; indices := [4]%nat;
       mergedVector := []; score := 1 |} ].

Definition exampleClusterLabeller (c : Cluster) : string :=
  append "Cluster " (index_string (Clustering.clusterIndex c)).

Definition exampleItemLabeller (i : nat) : string :=
  append "Item " (index_string i).

End FoamData.

(** * Facts about numbers and maps *)

Module NumberFacts.
Import JS.

Lemma float_of_SF (v : number) : v = SF2Prim (Prim2SF v).
Proof. symmetry; apply SF2Prim_Prim2SF. Qed.

(** Dividing by [+0] never gives a finite number. *)
Lemma div_zero_not_finite (v : number) : is_finite (v / 0)%float = false.
Proof.
  rewrite (float_of_SF (v / 0)%float), div_spec.
  change (Prim2SF 0%float) with (S754_zero false).
  destruct (Prim2SF v) as [s | s | | s m e]; try destruct s; reflexivity.
Qed.

Lemma finite_cases (v : number) :
  is_finite v = true ->
  (exists s, Prim2SF v = S754_zero s)
  \/ (exists s m e, Prim2SF v = S754_finite s m e).
Proof.
  intros H. rewrite (float_of_SF v) in H.
  destruct (Prim2SF v) as [s | s | | s m e] eqn:E.
  - left; eauto.
  - destruct s; discriminate H.
  - discriminate H.
  - right; eauto.
Qed.

Lemma sub_self (v : number) : is_finite v = true -> (v - v)%float = 0%float.
Proof.
  intros H. apply Prim2SF_inj. rewrite sub_spec.
  change (Prim2SF 0%float) with (S754_zero false).
  destruct (finite_cases v H) as [[s E] | (s & m & e & E)]; rewrite E.
  - destruct s; reflexivity.
  - unfold SF64sub, SFsub. rewrite Z.sub_diag. reflexivity.
Qed.

Lemma positive_not_negative (v : number) :
  (0 <? v)%float = true -> (v <? 0)%float = false.
Proof.
  rewrite !ltb_spec. change (Prim2SF 0%float) with (S754_zero false).
  destruct (Prim2SF v) as [s | s | | s m e]; try destruct s; cbn; congruence.
Qed.

Lemma hypot_zero {engine : Engine} : Math_hypot 0%float 0%float = 0%float.
Proof. now apply Math_hypot_zero. Qed.



(** ** V8's [Math.hypot] is an engine *)

Lemma float_cases (v : number) :
  v = nan \/ v = infinity \/ v = neg_infinity \/ v = 0%float
  \/ v = (-0)%float \/ exists s m e, Prim2SF v = S754_finite s m e.
Proof.
  destruct (Prim2SF v) as [s | s | | s m e] eqn:E.
  - right; right; right. destruct s; [right; left | left];
      apply Prim2SF_inj; rewrite E; reflexivity.
  - right. destruct s; [right; left | left];
      apply Prim2SF_inj; rewrite E; reflexivity.
  - left. apply Prim2SF_inj; rewrite E; reflexivity.
  - repeat right. eauto.
Qed.

Section Finite.
Variables (v : number) (s : bool) (m : positive) (e : Z).
Hypothesis E : Prim2SF v = S754_finite s m e.

Lemma finite_is_nan : is_nan v = false.
Proof.
  unfold is_nan. rewrite eqb_spec, E. unfold SFeqb, SFcompare.
  rewrite Z.compare_refl, Pos.compare_refl. now destruct s.
Qed.

Lemma finite_above_zero : (0 <? abs v)%float = true.
Proof. now rewrite ltb_spec, abs_spec, E. Qed.

Lemma finite_below_infinity : (abs v <? infinity)%float = true.
Proof. now rewrite ltb_spec, abs_spec, E. Qed.

Lemma infinity_not_below : (infinity <? abs v)%float = false.
Proof. now rewrite ltb_spec, abs_spec, E. Qed.

Lemma finite_not_infinity : (abs v =? infinity)%float = false.
Proof. now rewrite eqb_spec, abs_spec, E. Qed.

Lemma finite_not_zero : is_zero v = false.
Proof. unfold is_zero. rewrite eqb_spec, E. now destruct s. Qed.

End Finite.

Ltac float_case v :=
  destruct (float_cases v)
    as [-> | [-> | [-> | [-> | [-> | (?s & ?m & ?e & ?E)]]]]].

Ltac finite_tests :=
  match goal with
  | E : Prim2SF _ = S754_finite _ _ _ |- _ =>
      progress
        rewrite ?(finite_is_nan _ _ _ _ E), ?(finite_above_zero _ _ _ _ E),
          ?(finite_below_infinity _ _ _ _ E), ?(infinity_not_below _ _ _ _ E),
          ?(finite_not_infinity _ _ _ _ E), ?(finite_not_zero _ _ _ _ E)
  end.

Ltac closed_test :=
  match goal with
  | |- context [if ?c then _ else _] =>
      let b := eval vm_compute in c in
      match b with
      | true => change c with true
      | false => change c with false
      end
  end.

Ltac hypot_cases dx dy :=
  unfold V8_hypot, larger, is_infinity;
  float_case dx; float_case dy;
  change (abs infinity) with infinity;
  change (abs neg_infinity) with infinity;
  change (abs nan) with nan;
  change (abs 0) with 0%float;
  change (abs (-0)) with 0%float;
  repeat first
    [ finite_tests
    | progress cbn [negb orb andb]
    | progress cbv beta iota
    | closed_test ].

Lemma V8_hypot_infinite (dx dy : number) :
  is_infinity dx || is_infinity dy = true -> V8_hypot dx dy = infinity.
Proof.
  hypot_cases dx dy; intros H; try reflexivity; vm_compute in H; discriminate H.
Qed.

Lemma V8_hypot_nan (dx dy : number) :
  is_infinity dx || is_infinity dy = false ->
  is_nan dx || is_nan dy = true -> V8_hypot dx dy = nan.
Proof.
  hypot_cases dx dy; intros H1 H2; try reflexivity;
    vm_compute in H1, H2; first [discriminate H1 | discriminate H2].
Qed.

Lemma V8_hypot_zero (dx dy : number) :
  is_zero dx && is_zero dy = true -> V8_hypot dx dy = 0%float.
Proof.
  hypot_cases dx dy; intros H; try reflexivity;
    try (vm_compute in H; discriminate H).
Qed.

Definition V8 : Engine :=
  {| Math_hypot := V8_hypot;
     Math_hypot_infinite := V8_hypot_infinite;
     Math_hypot_nan := V8_hypot_nan;
     Math_hypot_zero := V8_hypot_zero |}.

(** Values of V8's [Math.hypot]: exact where the scaled squares are, one
    unit in the last place above 6 where the plain sum of the squares rounds
    to 36, and finite where the squares themselves overflow or underflow. *)
Example V8_hypot_values :
  V8_hypot 3 4 = 5%float
  /\ V8_hypot (-40) 0 = 40%float
  /\ V8_hypot 0.5 5.979130371550699 = 6.000000000000001%float
  /\ (sqrt (0.5 * 0.5 + 5.979130371550699 * 5.979130371550699) = 6)%float
  /\ V8_hypot 1e200 1e200 = 1.414213562373095e200%float
  /\ V8_hypot 1e-200 1e-200 = 1.414213562373095e-200%float.
Proof. repeat split; vm_compute; reflexivity. Qed.

End NumberFacts.

Module MapFacts.
Import JS.

Section Keys.
Context {V W : Type}.

Lemma keys_set (k : Z) (v : V) (w : W) (m : Map V) (m' : Map W) :
  keys m = keys m' -> keys (set k v m) = keys (set k w m').
Proof.
  revert m'; induction m as [| [k1 v1] m IH]; intros [| [k2 w2] m'] H;
    simpl in *; try discriminate; auto.
  injection H as -> H.
  destruct (k2 =? k); simpl; [congruence |].
  f_equal. unfold keys in IH. now apply IH.
Qed.

Lemma keys_delete (k : Z) (m : Map V) (m' : Map W) :
  keys m = keys m' -> keys (delete k m) = keys (delete k m').
Proof.
  revert m'; induction m as [| [k1 v1] m IH]; intros [| [k2 w2] m'] H;
    simpl in *; try discriminate; auto.
  injection H as -> H.
  destruct (k2 =? k); simpl; [| f_equal]; now apply IH.
Qed.
End Keys.

Section Sizes.
Context {V : Type}.

Lemma set_present (k : Z) (v : V) (m : Map V) :
  has k m = true -> size (set k v m) = size m /\ keys (set k v m) = keys m.
Proof.
  unfold has, size. induction m as [| [k1 v1] m IH]; simpl; [discriminate |].
  destruct (k1 =? k); simpl; [auto |].
  intros H. destruct (IH H) as [E1 E2].
  split; [now rewrite E1 | unfold keys in *; simpl; now rewrite E2].
Qed.

Lemma size_set_ge (k : Z) (v : V) (m : Map V) :
  (size m <= size (set k v m))%nat /\ (1 <= size (set k v m))%nat.
Proof.
  unfold size. induction m as [| [k1 v1] m IH]; simpl; [lia |].
  destruct (k1 =? k); simpl; lia.
Qed.

Lemma size_delete_le (k : Z) (m : Map V) :
  (size (delete k m) <= size m)%nat.
Proof.
  unfold size. induction m as [| [k1 v1] m IH]; simpl; [lia |].
  destruct (k1 =? k); simpl; lia.
Qed.

Lemma size_zero (m : Map V) : size m = 0%nat <-> m = [].
Proof. destruct m; simpl; split; intros; [ | | discriminate | discriminate ]; auto. Qed.

End Sizes.

Section KeySets.
Context {V : Type}.

Lemma in_keys_get (k : Z) (m : Map V) :
  In k (keys m) <-> exists v, get k m = Some v.
Proof.
  induction m as [| [k1 v1] m IH]; cbn [keys map fst get In].
  - split; [intros [] | intros [v H]; discriminate H].
  - destruct (Z.eqb_spec k1 k) as [-> | N].
    + split; eauto.
    + unfold keys in IH. rewrite <- IH. split; [intros [E | I] | ]; tauto.
Qed.

Lemma has_in_keys (k : Z) (m : Map V) : has k m = true <-> In k (keys m).
Proof.
  rewrite in_keys_get. unfold has.
  destruct (get k m) as [v |]; split; eauto; try discriminate.
  intros [v H]; discriminate H.
Qed.

Lemma keys_set_absent (k : Z) (v : V) (m : Map V) :
  has k m = false -> keys (set k v m) = keys m ++ [k].
Proof.
  unfold has. induction m as [| [k1 v1] m IH]; cbn [get set keys map fst app];
    [reflexivity |].
  destruct (k1 =? k); [discriminate |].
  intros H. cbn [map fst]. f_equal. now apply IH.
Qed.

Lemma keys_delete_filter (k : Z) (m : Map V) :
  keys (delete k m) = filter (fun k' => negb (k' =? k)) (keys m).
Proof.
  induction m as [| [k1 v1] m IH]; cbn [delete keys map fst filter];
    [reflexivity |].
  destruct (k1 =? k); cbn [negb map fst]; [| f_equal]; apply IH.
Qed.

Lemma keys_set_NoDup (k : Z) (v : V) (m : Map V) :
  NoDup (keys m) -> NoDup (keys (set k v m)).
Proof.
  intros N. destruct (has k m) eqn:H.
  - now rewrite (proj2 (set_present k v m H)).
  - rewrite (keys_set_absent k v m H).
    apply NoDup_app; [exact N | repeat constructor; intros [] | ].
    intros k' I [<- | []]. apply has_in_keys in I. congruence.
Qed.

Lemma keys_delete_NoDup (k : Z) (m : Map V) :
  NoDup (keys m) -> NoDup (keys (delete k m)).
Proof. rewrite keys_delete_filter. apply NoDup_filter. Qed.

Lemma in_keys_set (k k' : Z) (v : V) (m : Map V) :
  In k' (keys (set k v m)) -> k' = k \/ In k' (keys m).
Proof.
  destruct (has k m) eqn:H.
  - rewrite (proj2 (set_present k v m H)). auto.
  - rewrite (keys_set_absent k v m H), in_app_iff. cbn. intuition.
Qed.

Lemma in_keys_delete (k k' : Z) (m : Map V) :
  In k' (keys (delete k m)) -> In k' (keys m).
Proof. rewrite keys_delete_filter, filter_In. tauto. Qed.

End KeySets.

End MapFacts.

(** * The gesture translator: invariants *)

Module GestureFacts.
Import JS Gesture MapFacts NumberFacts.

#[local] Arguments dist : simpl never.
#[local] Arguments Math_hypot : simpl never.

Ltac reduce :=
  cbn -[Nat.leb Nat.eqb size values keys set delete get has dist
        Math_hypot ltb div].

Section WithEngine.
Context {engine : Engine}.

Lemma consistent_mounted (r : DOMRect) : consistent (mounted r).
Proof. split; simpl; auto; lia. Qed.

Lemma values_two {V : Type} (m : Map V) :
  (2 <= size m)%nat -> exists a b l, values m = a :: b :: l.
Proof.
  destruct m as [| [k1 a] [| [k2 b] m]]; simpl; try lia.
  intros _. now exists a, b, (values m).
Qed.

Lemma onPointerDown_consistent (ev : PointerEvent) (s : State) :
  consistent s -> consistent (fst (onPointerDown ev s)).
Proof.
  intros C. pose proof (c_foamtree s C) as F.
  unfold onPointerDown. rewrite F. reduce.
  destruct (is_mouse (pointerType ev) && negb (button ev =? 0)); [exact C |].
  set (ps := set (pointerId ev) _ (pointers s)).
  set (sp := set (pointerId ev) _ (startPos s)).
  assert (K : keys ps = keys sp) by (apply keys_set, (c_keys s C)).
  assert (N : (1 <= size ps)%nat) by apply size_set_ge.
  destruct (Nat.leb_spec 2 (size ps)) as [L | L].
  - destruct (values_two ps L) as (a & b & l & ->).
    split; reduce; intros; auto; lia.
  - split; reduce; intros; auto; lia.
Qed.

Lemma onPointerMove_consistent (ev : PointerEvent) (s : State) :
  consistent s -> consistent (fst (onPointerMove ev s)).
Proof.
  intros C. pose proof (c_foamtree s C) as F.
  unfold onPointerMove. rewrite F. reduce.
  destruct (has (pointerId ev) (pointers s)) eqn:H; [| exact C]. reduce.
  destruct (get (pointerId ev) (pointers s)) as [meta |]; [| exact C].
  set (ps := set (pointerId ev) _ (pointers s)).
  destruct (set_present (pointerId ev) (track (rel s ev) (type meta)) _ H)
    as [Sz Ks]. fold ps in Sz, Ks.
  assert (B : forall d t,
    (d = dragging s \/ (size ps = 1)%nat) -> t = transforming s ->
    consistent {| foamtree := foamtree s; container := container s;
                  pointers := ps; startPos := startPos s;
                  baseDist := baseDist s; dragging := d;
                  transforming := t |}).
  { intros d t Hd ->. split; reduce.
    - exact F.
    - rewrite Ks. apply (c_keys s C).
    - rewrite Sz. apply (c_two s C).
    - rewrite Sz. intros Z0. destruct (c_idle s C Z0) as [D T].
      destruct Hd as [-> | E]; [auto | lia]. }
  destruct (Nat.eqb_spec (size ps) 1) as [E1 | E1]; reduce.
  - destruct (transforming s) eqn:T; reduce.
    + destruct (Nat.eqb_spec (size ps) 2); [lia |]. apply B; auto.
    + destruct (get (pointerId ev) (startPos s)) as [s0 |]; reduce.
      * destruct (negb (dragging s) && _); apply B; auto.
      * apply B; auto.
  - destruct (size ps =? 2)%nat; [destruct (values ps) as [| a [| b l]] |];
      apply B; auto.
Qed.

Lemma onPointerUp_consistent (ev : PointerEvent) (s : State) :
  consistent s -> consistent (fst (onPointerUp ev s)).
Proof.
  intros C. pose proof (c_foamtree s C) as F.
  unfold onPointerUp. rewrite F. reduce.
  set (ps := delete (pointerId ev) (pointers s)).
  set (sp := delete (pointerId ev) (startPos s)).
  assert (K : keys ps = keys sp) by (apply keys_delete, (c_keys s C)).
  assert (L : (size ps <= size (pointers s))%nat) by apply size_delete_le.
  destruct (Nat.eqb_spec (size ps) 0) as [E | E]; split; reduce;
    intros; auto; try lia.
  apply (c_two s C). lia.
Qed.

Lemma onWheel_state (ev : WheelEvent) (s : State) :
  fst (onWheel ev s) = s.
Proof. unfold onWheel. now destruct (negb (foamtree s)). Qed.

Lemma dispatch_consistent (e : DomEvent) (s : State) :
  consistent s -> consistent (fst (dispatch e s)).
Proof.
  destruct e; simpl.
  - apply onPointerDown_consistent.
  - apply onPointerMove_consistent.
  - apply onPointerUp_consistent.
  - apply onPointerUp_consistent.
  - now rewrite onWheel_state.
Qed.

Lemma run_cons (e : DomEvent) (es : list DomEvent) (s : State) :
  run (e :: es) s =
  (fst (run es (fst (dispatch e s))),
   snd (dispatch e s) ++ snd (run es (fst (dispatch e s)))).
Proof.
  simpl. destruct (dispatch e s) as [s1 t1]. simpl.
  now destruct (run es s1) as [s2 t2].
Qed.

Lemma run_app (es1 es2 : list DomEvent) (s : State) :
  run (es1 ++ es2) s =
  (fst (run es2 (fst (run es1 s))),
   snd (run es1 s) ++ snd (run es2 (fst (run es1 s)))).
Proof.
  revert s; induction es1 as [| e es1 IH]; intros s.
  - simpl. now destruct (run es2 s).
  - rewrite <- app_comm_cons, !run_cons, IH. simpl. now rewrite app_assoc.
Qed.

Lemma run_consistent (es : list DomEvent) (s : State) :
  consistent s -> consistent (fst (run es s)).
Proof.
  revert s; induction es as [| e es IH]; intros s C; [exact C |].
  rewrite run_cons. simpl. apply IH, dispatch_consistent, C.
Qed.

Lemma reachable_consistent (s : State) : reachable s -> consistent s.
Proof.
  intros (r & es & <-). apply run_consistent, consistent_mounted.
Qed.

Lemma reachable_step (e : DomEvent) (s : State) :
  reachable s -> reachable (fst (dispatch e s)).
Proof.
  intros (r & es & <-). exists r, (es ++ [e]).
  rewrite run_app. cbn [fst]. rewrite run_cons. reflexivity.
Qed.

(** The keys a handler leaves in [pointers]. *)
Lemma dispatch_keys (e : DomEvent) (s : State) :
  keys (pointers (fst (dispatch e s))) = keys (pointers s)
  \/ (exists ev v, e = pointerdown ev /\ accepted ev = true
        /\ keys (pointers (fst (dispatch e s)))
           = keys (set (pointerId ev) v (pointers s)))
  \/ (exists ev, (e = pointerup ev \/ e = pointercancel ev)
        /\ keys (pointers (fst (dispatch e s)))
           = keys (delete (pointerId ev) (pointers s))).
Proof.
  destruct e as [ev | ev | ev | ev | ev]; cbn [dispatch].
  - unfold onPointerDown. destruct (negb (foamtree s)); [now left |].
    destruct (is_mouse _ && _) eqn:A; [now left |].
    right; left. exists ev, (track (rel s ev) (pointerType ev)).
    unfold accepted. rewrite A. repeat split.
    reduce. destruct (2 <=? _)%nat; [destruct (values _) as [| a [| b l]] |];
      reflexivity.
  - left. unfold onPointerMove. destruct (negb (foamtree s)); [reflexivity |].
    destruct (has (pointerId ev) (pointers s)) eqn:H; [| reflexivity].
    cbn [negb]. destruct (get _ (pointers s)) as [meta |]; [| reflexivity].
    pose proof (proj2 (set_present (pointerId ev)
                         (track (rel s ev) (type meta)) _ H)) as K.
    reduce. destruct (_ && _).
    + destruct (get _ (startPos s)); [destruct (negb _ && _) |]; exact K.
    + destruct (_ =? 2)%nat; [destruct (values _) as [| a [| b l]] |];
        exact K.
  - unfold onPointerUp. destruct (negb (foamtree s)); [now left |].
    right; right. exists ev. split; [now left |].
    reduce. now destruct (_ =? 0)%nat.
  - unfold onPointerUp. destruct (negb (foamtree s)); [now left |].
    right; right. exists ev. split; [now right |].
    reduce. now destruct (_ =? 0)%nat.
  - left. now rewrite onWheel_state.
Qed.

Lemma run_keys_NoDup (es : list DomEvent) (s : State) :
  NoDup (keys (pointers s)) -> NoDup (keys (pointers (fst (run es s)))).
Proof.
  revert s; induction es as [| e es IH]; intros s N; [exact N |].
  rewrite run_cons. cbn [fst]. apply IH.
  destruct (dispatch_keys e s) as [-> | [(ev & v & _ & _ & ->) | (ev & _ & ->)]];
    auto using keys_set_NoDup, keys_delete_NoDup.
Qed.

(** ** The stale baseline does not show *)

Lemma dispatch_container (e : DomEvent) (s : State) :
  container (fst (dispatch e s)) = container s.
Proof.
  destruct e as [ev | ev | ev | ev | ev]; cbn [dispatch];
    [unfold onPointerDown | unfold onPointerMove | unfold onPointerUp
    | unfold onPointerUp | unfold onWheel];
    repeat (reduce;
            match goal with
            | |- context [if ?b then _ else _] => destruct b
            | |- context [match ?v with _ => _ end] => destruct v
            end);
    reflexivity.
Qed.

Lemma run_container (es : list DomEvent) (s : State) :
  container (fst (run es s)) = container s.
Proof.
  revert s; induction es as [| e es IH]; intros s; [reflexivity |].
  rewrite run_cons. cbn [fst]. now rewrite IH, dispatch_container.
Qed.

(** The baseline is read only while two pointers are tracked, and every way
    to two pointers records it anew: a state behaves the same whatever its
    [baseDist] is while fewer than two pointers are tracked. *)
Ltac same_base b :=
  split; [reflexivity | exists b; split; [reflexivity | auto]].

Lemma dispatch_baseDist (e : DomEvent) (s : State) (b : number) :
  ((2 <= size (pointers s))%nat -> b = baseDist s) ->
  snd (dispatch e (with_baseDist b s)) = snd (dispatch e s)
  /\ exists b',
       fst (dispatch e (with_baseDist b s))
       = with_baseDist b' (fst (dispatch e s))
       /\ ((2 <= size (pointers (fst (dispatch e s))))%nat ->
           b' = baseDist (fst (dispatch e s))).
Proof.
  intros B.
  destruct e as [ev | ev | ev | ev | ev]; cbn [dispatch].
  - unfold onPointerDown. reduce.
    change (rel (with_baseDist b s) ev) with (rel s ev).
    destruct (negb (foamtree s)); reduce; [same_base b |].
    destruct (is_mouse _ && _); reduce; [same_base b |].
    destruct (Nat.leb_spec 2 (size (set (pointerId ev)
                (track (rel s ev) (pointerType ev)) (pointers s)))) as [L | L].
    + destruct (values_two _ L) as (a & c & l & ->). reduce.
      split; [reflexivity |]. eexists. split; reflexivity.
    + reduce. split; [reflexivity |]. exists b. split; [reflexivity | lia].
  - unfold onPointerMove. reduce.
    change (rel (with_baseDist b s) ev) with (rel s ev).
    destruct (negb (foamtree s)); reduce; [same_base b |].
    destruct (has (pointerId ev) (pointers s)) eqn:H; reduce;
      [| same_base b].
    destruct (get (pointerId ev) (pointers s)) as [meta |]; reduce;
      [| same_base b].
    destruct (set_present (pointerId ev) (track (rel s ev) (type meta)) _ H)
      as [Sz _].
    assert (B' : (2 <= size (set (pointerId ev)
                       (track (rel s ev) (type meta)) (pointers s)))%nat ->
                 b = baseDist s) by (now rewrite Sz).
    destruct (_ && _); reduce.
    + destruct (get _ (startPos s)); [destruct (negb _ && _) |]; reduce;
        same_base b.
    + destruct (Nat.eqb_spec (size (set (pointerId ev)
                  (track (rel s ev) (type meta)) (pointers s))) 2) as [E | E].
      * rewrite B' by lia.
        destruct (values _) as [| a [| c l]]; reduce; same_base (baseDist s).
      * reduce. same_base b.
  - unfold onPointerUp. reduce.
    change (rel (with_baseDist b s) ev) with (rel s ev).
    destruct (negb (foamtree s)); reduce; [same_base b |].
    pose proof (size_delete_le (pointerId ev) (pointers s)) as L.
    destruct (Nat.eqb_spec (size (delete (pointerId ev) (pointers s))) 0);
      reduce; (split; [reflexivity |]); exists b;
      (split; [reflexivity |]); reduce; intros; apply B; lia.
  - unfold onPointerUp. reduce.
    change (rel (with_baseDist b s) ev) with (rel s ev).
    destruct (negb (foamtree s)); reduce; [same_base b |].
    pose proof (size_delete_le (pointerId ev) (pointers s)) as L.
    destruct (Nat.eqb_spec (size (delete (pointerId ev) (pointers s))) 0);
      reduce; (split; [reflexivity |]); exists b;
      (split; [reflexivity |]); reduce; intros; apply B; lia.
  - unfold onWheel. reduce.
    change (relW (with_baseDist b s) ev) with (relW s ev).
    destruct (negb (foamtree s)); reduce; same_base b.
Qed.

Lemma run_baseDist (es : list DomEvent) (s : State) (b : number) :
  ((2 <= size (pointers s))%nat -> b = baseDist s) ->
  snd (run es (with_baseDist b s)) = snd (run es s).
Proof.
  revert s b; induction es as [| e es IH]; intros s b B; [reflexivity |].
  rewrite !run_cons. cbn [snd].
  destruct (dispatch_baseDist e s b B) as (-> & b' & -> & B').
  now rewrite (IH _ b' B').
Qed.

Lemma keys_nil {V : Type} (m : Map V) : keys m = [] -> m = [].
Proof. now destruct m. Qed.

(** A reachable state without active pointers is the mounted state, up to
    the stale baseline, and behaves as the mounted state does. *)
Lemma idle_like_mounted (s : State) :
  reachable s -> size (pointers s) = 0%nat ->
  exists r, s = idle r (baseDist s)
            /\ forall es, snd (run es s) = snd (run es (mounted r)).
Proof.
  intros R Z0. pose proof (reachable_consistent s R) as C.
  destruct (c_idle s C Z0) as [D T]. apply size_zero in Z0.
  assert (SP : startPos s = []).
  { apply keys_nil. now rewrite <- (c_keys s C), Z0. }
  destruct R as (r & es0 & E). exists r.
  assert (Cn : container s = Some r) by (now rewrite <- E, run_container).
  assert (I : s = idle r (baseDist s)).
  { pose proof (c_foamtree s C) as F. clear E C.
    destruct s; cbn in *; subst; reflexivity. }
  split; [exact I |]. intros es. rewrite I.
  change (idle r (baseDist s)) with (with_baseDist (baseDist s) (mounted r)).
  apply run_baseDist. cbn. lia.
Qed.

(** ** Flags against the number of active pointers *)

Lemma dragging_turns_on (e : DomEvent) (s : State) :
  foamtree s = true ->
  dragging s = false -> dragging (fst (dispatch e s)) = true ->
  exists ev s0,
    e = pointermove ev /\ size (pointers s) = 1%nat
    /\ transforming s = false
    /\ get (pointerId ev) (startPos s) = Some s0
    /\ beyond (rel s ev) s0 = true.
Proof.
  intros F D. destruct e as [ev | ev | ev | ev | ev]; simpl.
  - unfold onPointerDown. rewrite F. reduce.
    destruct (is_mouse (pointerType ev) && negb (button ev =? 0)); reduce;
      [congruence |].
    destruct (2 <=? _)%nat; [destruct (values _) as [| a [| b l]] |];
      reduce; congruence.
  - unfold onPointerMove. rewrite F. reduce.
    destruct (has (pointerId ev) (pointers s)) eqn:H; reduce; [| congruence].
    destruct (get (pointerId ev) (pointers s)) as [meta |]; reduce;
      [| congruence].
    destruct (set_present (pointerId ev) (track (rel s ev) (type meta)) _ H)
      as [Sz _].
    destruct (Nat.eqb_spec (size (set (pointerId ev)
                (track (rel s ev) (type meta)) (pointers s))) 1) as [E1 | E1];
      reduce.
    + destruct (transforming s) eqn:T; reduce.
      * destruct (_ =? 2)%nat; [destruct (values _) as [| a [| b l]] |];
          reduce; congruence.
      * destruct (get (pointerId ev) (startPos s)) as [s0 |] eqn:G; reduce;
          [| congruence].
        rewrite D. reduce.
        destruct (TAP_TOLERANCE <? dist (rel s ev) s0)%float eqn:B; reduce;
          [| congruence].
        intros _. exists ev, s0. repeat split; auto. congruence.
    + destruct (_ =? 2)%nat; [destruct (values _) as [| a [| b l]] |];
        reduce; congruence.
  - unfold onPointerUp. rewrite F. reduce.
    destruct (_ =? 0)%nat; reduce; congruence.
  - unfold onPointerUp. rewrite F. reduce.
    destruct (_ =? 0)%nat; reduce; congruence.
  - rewrite onWheel_state. congruence.
Qed.

Lemma move_beyond_tolerance (ev : PointerEvent) (s : State) (s0 : Point) :
  foamtree s = true -> size (pointers s) = 1%nat ->
  has (pointerId ev) (pointers s) = true -> transforming s = false ->
  get (pointerId ev) (startPos s) = Some s0 ->
  beyond (rel s ev) s0 = true ->
  dragging (fst (onPointerMove ev s)) = true.
Proof.
  intros F L H T G0 B. unfold onPointerMove. rewrite F, H. cbn [negb].
  assert (Sp : forall v : Tracked,
            size (set (pointerId ev) v (pointers s)) = size (pointers s))
    by (intros v; now apply set_present).
  destruct (get (pointerId ev) (pointers s)) as [meta |] eqn:G.
  2:{ unfold has in H. rewrite G in H. discriminate H. }
  reduce. rewrite Sp, L, T, G0. cbn -[set dist ltb Math_hypot].
  unfold beyond in B. rewrite B.
  destruct (dragging s) eqn:D; cbn -[set dist ltb Math_hypot];
    rewrite ?D; reflexivity.
Qed.

(** C1 (amended): in every reachable state, two or more active pointers
    imply [transforming]; [transforming] or [dragging] imply at least one
    active pointer; and [dragging] turns true only on a move of the single
    active pointer, while [transforming] is false, to a position for which
    [Math.hypot] of the two coordinate differences to its start position is
    above 6, and every such move leaves [dragging] true. *)
Theorem C1_flags_follow_pointers (s : State) :
  reachable s ->
  ((2 <= size (pointers s))%nat -> transforming s = true)
  /\ (transforming s = true -> (1 <= size (pointers s))%nat)
  /\ (dragging s = true -> (1 <= size (pointers s))%nat)
  /\ (forall e, dragging s = false ->
        dragging (fst (dispatch e s)) = true ->
        exists ev s0,
          e = pointermove ev /\ size (pointers s) = 1%nat
          /\ transforming s = false
          /\ get (pointerId ev) (startPos s) = Some s0
          /\ (6 <? Math_hypot (x (rel s ev) - x s0)
                              (y (rel s ev) - y s0))%float = true)
  /\ (forall ev s0,
        size (pointers s) = 1%nat ->
        has (pointerId ev) (pointers s) = true ->
        transforming s = false ->
        get (pointerId ev) (startPos s) = Some s0 ->
        (6 <? Math_hypot (x (rel s ev) - x s0)
                         (y (rel s ev) - y s0))%float = true ->
        dragging (fst (dispatch (pointermove ev) s)) = true).
Proof.
  intros R. pose proof (reachable_consistent s R) as C.
  repeat split.
  - apply (c_two s C).
  - intros T. destruct (size (pointers s)) eqn:E; [| lia].
    destruct (c_idle s C E); congruence.
  - intros D. destruct (size (pointers s)) eqn:E; [| lia].
    destruct (c_idle s C E); congruence.
  - intros e. apply dragging_turns_on, (c_foamtree s C).
  - intros ev s0 L H T G B.
    exact (move_beyond_tolerance ev s s0 (c_foamtree s C) L H T G B).
Qed.

(** ** One pointer: taps and drags *)

Lemma down_first (r : DOMRect) (d : PointerEvent) :
  accepted d = true ->
  onPointerDown d (mounted r)
  = (single r (pointerId d) (pointerType d)
       (rel (mounted r) d) (rel (mounted r) d) 0 false false, []).
Proof.
  unfold accepted, onPointerDown. intros A.
  apply negb_true_iff in A. cbn. rewrite A. reflexivity.
Qed.

Lemma down_ignored (d : PointerEvent) (s : State) :
  accepted d = false -> onPointerDown d s = (s, []).
Proof.
  unfold accepted, onPointerDown. intros A.
  apply negb_false_iff in A. rewrite A. now destruct (negb (foamtree s)).
Qed.

Lemma move_single (r : DOMRect) (id : Z) (ty : PointerType) (p p0 : Point)
    (bd : number) (dg : bool) (ev : PointerEvent) :
  pointerId ev = id ->
  onPointerMove ev (single r id ty p p0 bd dg false)
  = (single r id ty (rel (mounted r) ev) p0 bd
       (dg || beyond (rel (mounted r) ev) p0) false,
     drag_triggers dg p0 [rel (mounted r) ev]).
Proof.
  intros <-. unfold onPointerMove, single, has, beyond.
  cbn. rewrite ?Z.eqb_refl. cbn. rewrite ?Z.eqb_refl. cbn.
  destruct dg; cbn; [reflexivity |].
  now destruct (ltb _ _).
Qed.

Lemma move_untracked (r : DOMRect) (bd : number) (ev : PointerEvent) :
  onPointerMove ev (idle r bd) = (idle r bd, []).
Proof. reflexivity. Qed.

Lemma up_single (r : DOMRect) (id : Z) (ty : PointerType) (p p0 : Point)
    (bd : number) (dg tf : bool) (ev : PointerEvent) :
  pointerId ev = id ->
  onPointerUp ev (single r id ty p p0 bd dg tf)
  = (idle r bd,
     (if tf then [trigger transformend (plain (rel (mounted r) ev))] else [])
     ++ (if dg then [trigger dragend (plain (rel (mounted r) ev))] else [])
     ++ (if negb dg && negb tf
         then [trigger click (plain (rel (mounted r) ev))] else [])).
Proof.
  intros <-. unfold onPointerUp, single. cbn. rewrite Z.eqb_refl. reflexivity.
Qed.

Lemma up_idle (r : DOMRect) (bd : number) (ev : PointerEvent) :
  onPointerUp ev (idle r bd)
  = (idle r bd, [trigger click (plain (rel (mounted r) ev))]).
Proof. reflexivity. Qed.

Lemma last_cons {A : Type} (a d : A) (l : list A) :
  last (a :: l) d = last l a.
Proof.
  revert a d; induction l as [| b l IH]; intros a d; [reflexivity |].
  change (last (a :: b :: l) d) with (last (b :: l) d).
  now rewrite (IH b d), (IH b a).
Qed.

Lemma moves_single (r : DOMRect) (id : Z) (ty : PointerType) (p0 : Point)
    (bd : number) (ms : list PointerEvent) :
  Forall (fun m => pointerId m = id) ms ->
  forall (p : Point) (dg : bool),
  run (map pointermove ms) (single r id ty p p0 bd dg false)
  = (single r id ty (last (map (rel (mounted r)) ms) p) p0 bd
       (dragged dg p0 (map (rel (mounted r)) ms)) false,
     drag_triggers dg p0 (map (rel (mounted r)) ms)).
Proof.
  unfold dragged.
  induction 1 as [| m ms Hm Hms IH]; intros p dg.
  - cbn. now rewrite orb_false_r.
  - rewrite map_cons, run_cons. cbn [dispatch].
    rewrite (move_single r id ty p p0 bd dg m Hm). cbn [fst snd].
    rewrite IH. cbn [fst snd map existsb drag_triggers].
    rewrite last_cons, orb_assoc, app_nil_r, <- !app_assoc. reflexivity.
Qed.

Lemma moves_idle (r : DOMRect) (bd : number) (ms : list PointerEvent) :
  run (map pointermove ms) (idle r bd) = (idle r bd, []).
Proof.
  induction ms as [| m ms IH]; [reflexivity |].
  rewrite map_cons, run_cons. cbn [dispatch].
  rewrite move_untracked. cbn [fst snd]. now rewrite IH.
Qed.

Lemma drag_triggers_quiet (p0 : Point) (ps : list Point) :
  Forall (fun p => beyond p p0 = false) ps ->
  drag_triggers false p0 ps = [] /\ dragged false p0 ps = false.
Proof.
  unfold dragged. induction 1 as [| p ps Hp Hps [IH1 IH2]]; [auto |].
  cbn [drag_triggers existsb]. rewrite Hp. cbn [andb orb negb app]. auto.
Qed.

Lemma tap_run (r : DOMRect) (d u : PointerEvent) (ms : list PointerEvent) :
  Forall (fun m => pointerId m = pointerId d) ms ->
  pointerId u = pointerId d ->
  Forall (fun m => beyond (rel (mounted r) m) (rel (mounted r) d) = false) ms ->
  snd (run (pointerdown d :: map pointermove ms ++ [pointerup u]) (mounted r))
  = [trigger click (plain (rel (mounted r) u))].
Proof.
  intros Hms Hu Hq.
  rewrite run_cons, run_app. cbn [dispatch fst snd].
  destruct (accepted d) eqn:A.
  - rewrite (down_first r d A). cbn [fst snd].
    rewrite (moves_single r _ _ _ _ ms Hms). cbn [fst snd].
    destruct (drag_triggers_quiet (rel (mounted r) d)
                (map (rel (mounted r)) ms)) as [-> ->].
    { now apply Forall_map. }
    rewrite run_cons. cbn [dispatch run fst snd].
    rewrite (up_single r _ _ _ _ _ _ _ u Hu). reflexivity.
  - rewrite (down_ignored d _ A). cbn [fst snd].
    change (mounted r) with (idle r 0) at 1 2 3.
    rewrite moves_idle, run_cons. cbn [dispatch run fst snd].
    rewrite up_idle. reflexivity.
Qed.

(** C2: from any reachable state without active pointers, a pointer that
    goes down, moves only to positions for which [Math.hypot] of the two
    coordinate differences to where it went down is not above 6, and goes
    up, triggers one [click], at the position of the release, and nothing
    else (so no [dragstart], [drag] or [dragend]). *)
Theorem C2_tap_is_one_click (s : State) (d u : PointerEvent)
    (ms : list PointerEvent) :
  reachable s -> size (pointers s) = 0%nat ->
  Forall (fun m => pointerId m = pointerId d) ms ->
  pointerId u = pointerId d ->
  Forall (fun m => (6 <? Math_hypot (x (rel s m) - x (rel s d))
                                    (y (rel s m) - y (rel s d)))%float
                   = false) ms ->
  snd (run (pointerdown d :: map pointermove ms ++ [pointerup u]) s)
  = [trigger click (plain (rel s u))].
Proof.
  intros R Z0 Hms Hu Hq.
  destruct (idle_like_mounted s R Z0) as (r & I & E).
  assert (Rl : forall ev, rel s ev = rel (mounted r) ev)
    by (intros ev; rewrite I; reflexivity).
  rewrite E, Rl. apply tap_run; auto.
  revert Hq. apply Forall_impl. intros m. now rewrite !Rl.
Qed.

(** *** Order and number of triggers *)

Lemma guarded_app (a b : Verb) (seen : bool) (l1 l2 : list Verb) :
  guarded a b seen (l1 ++ l2)
  = guarded a b seen l1 && guarded a b (seen_in a seen l1) l2.
Proof.
  unfold seen_in. revert seen; induction l1 as [| v l1 IH]; intros seen.
  - cbn. now rewrite orb_false_r.
  - cbn [app guarded existsb]. rewrite IH, orb_assoc, andb_assoc. reflexivity.
Qed.

Lemma guarded_true (a b : Verb) (l : list Verb) : guarded a b true l = true.
Proof.
  induction l as [| v l IH]; [reflexivity |].
  cbn [guarded]. rewrite orb_true_r. cbn [orb andb]. exact IH.
Qed.

Lemma guarded_sound (a b : Verb) (t : list Trigger) (seen : bool) :
  guarded a b seen (verbs t) = true ->
  forall t1 e t2, t = t1 ++ e :: t2 -> verb e = b ->
    seen = true \/ exists e', In e' t1 /\ verb e' = a.
Proof.
  revert seen; induction t as [| e0 t IH]; intros seen G t1 e t2 E Hb.
  - now destruct t1.
  - cbn [verbs map guarded] in G. apply andb_true_iff in G as [G1 G2].
    destruct t1 as [| e1 t1]; cbn in E; injection E as -> E.
    + unfold verb_eqb in G1. rewrite Hb in G1.
      destruct (Verb_eq_dec b b); [| congruence]. now left.
    + destruct (IH _ G2 t1 e t2 E Hb) as [S | (e' & I & V)].
      * apply orb_true_iff in S as [S | S]; [now left |].
        right. exists e1. split; [now left |].
        unfold verb_eqb in S. now destruct (Verb_eq_dec (verb e1) a).
      * right. exists e'. split; [now right | exact V].
Qed.

Lemma guarded_precedes (a b : Verb) (t : list Trigger) :
  guarded a b false (verbs t) = true -> precedes a b t.
Proof.
  intros G t1 e t2 E Hb.
  now destruct (guarded_sound a b t false G t1 e t2 E Hb).
Qed.

Lemma count_app (v : Verb) (t1 t2 : list Trigger) :
  count v (t1 ++ t2) = (count v t1 + count v t2)%nat.
Proof. unfold count, verbs. now rewrite map_app, count_occ_app. Qed.

Lemma drag_triggers_guarded (p0 : Point) (ps : list Point) (dg : bool) :
  guarded dragstart drag dg (verbs (drag_triggers dg p0 ps)) = true.
Proof.
  revert dg; induction ps as [| p ps IH]; intros dg; [reflexivity |].
  cbn [drag_triggers]. unfold verbs in *. rewrite !map_app, !guarded_app.
  destruct dg; cbn [negb andb orb].
  - cbn. apply IH.
  - destruct (beyond p p0); cbn; [apply IH | apply IH].
Qed.

Lemma drag_triggers_count (v : Verb) (p0 : Point) (ps : list Point) (dg : bool) :
  v <> dragstart -> v <> drag -> count v (drag_triggers dg p0 ps) = 0%nat.
Proof.
  intros N1 N2. revert dg; induction ps as [| p ps IH]; intros dg;
    [reflexivity |].
  cbn [drag_triggers]. rewrite !count_app, IH.
  destruct v; try congruence;
    destruct (negb dg && beyond p p0), (dg || beyond p p0); reflexivity.
Qed.

Lemma dragged_exists (dg : bool) (p0 : Point) (ps : list Point) :
  Exists (fun p => beyond p p0 = true) ps -> dragged dg p0 ps = true.
Proof.
  intros E. unfold dragged. apply orb_true_iff. right.
  apply existsb_exists. apply Exists_exists in E as (p & I & B). eauto.
Qed.

(** The triggers of a tracked pointer's down, moves and up, when some move
    went beyond the tolerance. *)
Lemma drag_run (r : DOMRect) (d u : PointerEvent) (ms : list PointerEvent) :
  accepted d = true ->
  Forall (fun m => pointerId m = pointerId d) ms ->
  pointerId u = pointerId d ->
  Exists (fun m => beyond (rel (mounted r) m) (rel (mounted r) d) = true) ms ->
  snd (run (pointerdown d :: map pointermove ms ++ [pointerup u]) (mounted r))
  = drag_triggers false (rel (mounted r) d) (map (rel (mounted r)) ms)
    ++ [trigger dragend (plain (rel (mounted r) u))].
Proof.
  intros A Hms Hu Hx.
  rewrite run_cons, run_app. cbn [dispatch fst snd].
  rewrite (down_first r d A). cbn [fst snd].
  rewrite (moves_single r _ _ _ _ ms Hms). cbn [fst snd].
  rewrite dragged_exists.
  2:{ apply Exists_exists in Hx as (m & I & B). apply Exists_exists.
      exists (rel (mounted r) m). split; [now apply in_map | exact B]. }
  rewrite run_cons. cbn [dispatch run fst snd].
  rewrite (up_single r _ _ _ _ _ _ _ u Hu). reflexivity.
Qed.

Lemma first_true {A : Type} (f : A -> bool) (l : list A) :
  Exists (fun a => f a = true) l ->
  exists l1 a l2,
    l = l1 ++ a :: l2 /\ Forall (fun b => f b = false) l1 /\ f a = true.
Proof.
  induction l as [| b l IH]; intros E; [inversion E |].
  destruct (f b) eqn:Fb.
  - exists [], b, l. repeat split; auto.
  - inversion E as [? ? Hb | ? ? Hl]; subst; [congruence |].
    destruct (IH Hl) as (l1 & a & l2 & -> & Q & Fa).
    exists (b :: l1), a, l2. repeat split; auto.
Qed.

Lemma drag_triggers_app (dg : bool) (p0 : Point) (ps1 ps2 : list Point) :
  drag_triggers dg p0 (ps1 ++ ps2)
  = drag_triggers dg p0 ps1 ++ drag_triggers (dragged dg p0 ps1) p0 ps2.
Proof.
  unfold dragged. revert dg; induction ps1 as [| p ps1 IH]; intros dg.
  - cbn. now rewrite orb_false_r.
  - cbn [app drag_triggers existsb]. rewrite IH, orb_assoc, <- !app_assoc.
    reflexivity.
Qed.

Lemma drag_triggers_on (p0 : Point) (ps : list Point) :
  drag_triggers true p0 ps = map (fun p => trigger drag (plain p)) ps.
Proof.
  induction ps as [| p ps IH]; [reflexivity |].
  cbn [drag_triggers negb andb orb app map]. now rewrite IH.
Qed.

(** What a drag triggers: nothing up to the first move beyond the tolerance,
    [dragstart] and [drag] at that move, and one [drag] for each move after
    it. *)
Lemma drag_triggers_from_first (p0 p : Point) (ps1 ps2 : list Point) :
  Forall (fun q => beyond q p0 = false) ps1 -> beyond p p0 = true ->
  drag_triggers false p0 (ps1 ++ p :: ps2)
  = trigger dragstart (plain p)
    :: map (fun q => trigger drag (plain q)) (p :: ps2).
Proof.
  intros Q B. rewrite drag_triggers_app.
  destruct (drag_triggers_quiet p0 ps1 Q) as [-> ->].
  cbn [app drag_triggers negb andb orb]. rewrite B.
  cbn [app map]. now rewrite drag_triggers_on.
Qed.

Lemma count_all_drag (v : Verb) (l : list Trigger) :
  Forall (fun tr => verb tr = drag) l ->
  count v l = if Verb_eq_dec drag v then length l else 0%nat.
Proof.
  unfold count, verbs.
  induction 1 as [| tr l Htr Hl IH]; [now destruct (Verb_eq_dec drag v) |].
  cbn [map count_occ length]. rewrite Htr, IH.
  now destruct (Verb_eq_dec drag v).
Qed.

Lemma all_drag {A : Type} (f : A -> Point) (l : list A) :
  Forall (fun tr => verb tr = drag)
         (map (fun a => trigger drag (plain (f a))) l).
Proof. induction l; constructor; auto. Qed.

(** A [dragstart], then [drag]s only, then a [dragend]. *)
Lemma bracket_counts (p pu : Point) (l : list Trigger) :
  Forall (fun tr => verb tr = drag) l ->
  let t := trigger dragstart (plain p) :: l
           ++ [trigger dragend (plain pu)] in
  precedes dragstart drag t
  /\ count dragstart t = 1%nat
  /\ count drag t = length l
  /\ count dragend t = 1%nat
  /\ count click t = 0%nat.
Proof.
  intros D t. subst t.
  change (?a :: l ++ ?k) with ([a] ++ l ++ k).
  rewrite !count_app, !(count_all_drag _ l D).
  repeat split; try (cbn; lia).
  apply guarded_precedes. cbn [app verbs map guarded verb trigger].
  cbn. apply guarded_true.
Qed.

(** C3: from any reachable state without active pointers, when a tracked
    pointer goes down, moves, at some move to a position for which
    [Math.hypot] of the two coordinate differences to where it went down is
    above 6, and goes up, the triggers are exactly: one [dragstart] at the
    first such move, one [drag] for that move and for every move after it,
    and one [dragend] at the position of the release.  So every [drag] comes
    after the [dragstart], there is exactly one [dragend], issued last, and
    there is no [click]. *)
Theorem C3_drag_is_bracketed (s : State) (d u : PointerEvent)
    (ms : list PointerEvent) :
  reachable s -> size (pointers s) = 0%nat ->
  accepted d = true ->
  Forall (fun m => pointerId m = pointerId d) ms ->
  pointerId u = pointerId d ->
  Exists (fun m => (6 <? Math_hypot (x (rel s m) - x (rel s d))
                                    (y (rel s m) - y (rel s d)))%float
                   = true) ms ->
  let t := snd (run (pointerdown d :: map pointermove ms ++ [pointerup u])
                    s) in
  (exists ms1 m ms2,
     ms = ms1 ++ m :: ms2
     /\ Forall (fun e => (6 <? Math_hypot (x (rel s e) - x (rel s d))
                                          (y (rel s e) - y (rel s d)))%float
                         = false) ms1
     /\ (6 <? Math_hypot (x (rel s m) - x (rel s d))
                         (y (rel s m) - y (rel s d)))%float = true
     /\ t = trigger dragstart (plain (rel s m))
            :: map (fun e => trigger drag (plain (rel s e))) (m :: ms2)
            ++ [trigger dragend (plain (rel s u))])
  /\ precedes dragstart drag t
  /\ count dragstart t = 1%nat
  /\ (1 <= count drag t)%nat
  /\ count dragend t = 1%nat
  /\ (exists t', t = t' ++ [trigger dragend (plain (rel s u))])
  /\ count click t = 0%nat.
Proof.
  intros R Z0 A Hms Hu Hx t.
  destruct (idle_like_mounted s R Z0) as (r & I & E).
  assert (Rl : forall ev, rel s ev = rel (mounted r) ev)
    by (intros ev; rewrite I; reflexivity).
  assert (Hx' : Exists (fun m => beyond (rel s m) (rel s d) = true) ms)
    by exact Hx.
  destruct (first_true (fun m => beyond (rel s m) (rel s d)) ms Hx')
    as (ms1 & m & ms2 & Ems & Q & B).
  assert (T : t = trigger dragstart (plain (rel s m))
                  :: map (fun e => trigger drag (plain (rel s e))) (m :: ms2)
                  ++ [trigger dragend (plain (rel s u))]).
  { subst t. rewrite E, drag_run; auto.
    - rewrite <- !Rl. f_equal.
      replace (map (rel (mounted r)) ms) with (map (rel s) ms)
        by (apply map_ext; exact Rl).
      rewrite Ems, map_app, map_cons, drag_triggers_from_first;
        [| now apply Forall_map | exact B].
      now rewrite <- (map_map (rel s) (fun q => trigger drag (plain q))).
    - revert Hx'. apply Exists_impl. intros e. now rewrite !Rl. }
  destruct (bracket_counts (rel s m) (rel s u)
              (map (fun e => trigger drag (plain (rel s e))) (m :: ms2))
              (all_drag (rel s) (m :: ms2)))
    as (P & C1 & C2 & C3 & C4).
  rewrite <- T in P, C1, C2, C3, C4.
  repeat split; auto.
  - exists ms1, m, ms2. repeat split; auto.
  - rewrite C2. cbn [length map]. lia.
  - rewrite T. eexists (_ :: _). reflexivity.
Qed.

(** ** Two pointers: transforms *)

Lemma down_second (s : State) (k1 : Z) (t1 : Tracked) (d : PointerEvent) :
  foamtree s = true -> pointers s = [(k1, t1)] ->
  accepted d = true -> pointerId d <> k1 ->
  onPointerDown d s
  = (with_transforming true
       (with_baseDist (dist (xy t1) (rel s d))
          (with_maps [(k1, t1);
                      (pointerId d, track (rel s d) (pointerType d))]
                     (set (pointerId d) (rel s d) (startPos s)) s)),
     [trigger transformstart (second (xy t1))]).
Proof.
  intros F P A N. unfold accepted in A. apply negb_true_iff in A.
  unfold onPointerDown. rewrite F, A, P. cbn [negb set].
  apply not_eq_sym, Z.eqb_neq in N. rewrite N. reflexivity.
Qed.

Lemma move_pair (s : State) (k1 k2 : Z) (t1 t2 : Tracked) (m : PointerEvent) :
  foamtree s = true -> pointers s = [(k1, t1); (k2, t2)] -> k1 <> k2 ->
  pointerId m = k1 \/ pointerId m = k2 ->
  onPointerMove m s
  = (with_pointers [(k1, fst (pair_after s m k1 t1 t2));
                    (k2, snd (pair_after s m k1 t1 t2))] s,
     [trigger transform
        (scaled (xy (fst (pair_after s m k1 t1 t2)))
           (dist (xy (fst (pair_after s m k1 t1 t2)))
                 (xy (snd (pair_after s m k1 t1 t2))) / baseDist s)%float)]).
Proof.
  intros F P N I. unfold onPointerMove, pair_after, has. rewrite F, P.
  cbn [negb get set].
  assert (N1 : (k1 =? k2) = false) by now apply Z.eqb_neq.
  assert (N2 : (k2 =? k1) = false) by now rewrite Z.eqb_sym.
  destruct I as [I | I]; rewrite I.
  - rewrite !Z.eqb_refl. reflexivity.
  - rewrite N1, N2, !Z.eqb_refl. reflexivity.
Qed.

(** Moves of two tracked pointers keep the pair and the baseline, and each
    triggers one [transform] whose scale is a quotient by that baseline. *)
Lemma moves_pair (k1 k2 : Z) (ms : list PointerEvent) :
  k1 <> k2 ->
  Forall (fun m => pointerId m = k1 \/ pointerId m = k2) ms ->
  forall (s : State) (t1 t2 : Tracked),
  foamtree s = true -> pointers s = [(k1, t1); (k2, t2)] ->
  let o := run (map pointermove ms) s in
  foamtree (fst o) = true
  /\ container (fst o) = container s
  /\ baseDist (fst o) = baseDist s
  /\ (exists a b, pointers (fst o) = [(k1, a); (k2, b)])
  /\ Forall (fun tr => exists p v,
               tr = trigger transform (scaled p (v / baseDist s)%float))
            (snd o)
  /\ length (snd o) = length ms.
Proof.
  intros N. induction 1 as [| m ms Hm Hms IH]; intros s t1 t2 F P.
  - cbn. repeat split; eauto.
  - cbn zeta. rewrite map_cons, run_cons. cbn [dispatch].
    rewrite (move_pair s k1 k2 t1 t2 m F P N Hm). cbn [fst snd].
    set (s1 := with_pointers _ s).
    destruct (IH s1 _ _ F eq_refl) as (F' & C' & B' & AB & T & L).
    repeat split; auto.
    + constructor; [eauto | exact T].
    + cbn [app length]. now rewrite L.
Qed.






(** *** Where the baseline comes from *)


(** Only an accepted [pointerdown] adds a pointer or assigns [baseDist]. *)
Lemma quiet_step (e : DomEvent) (s : State) :
  records e = false ->
  (size (pointers (fst (dispatch e s))) <= size (pointers s))%nat
  /\ baseDist (fst (dispatch e s)) = baseDist s.
Proof.
  intros Q. destruct e as [ev | ev | ev | ev | ev]; cbn [dispatch].
  - cbn [records] in Q. rewrite (down_ignored ev s Q). cbn [fst]. auto.
  - unfold onPointerMove. destruct (negb (foamtree s)); [cbn [fst]; auto |].
    destruct (has (pointerId ev) (pointers s)) eqn:H; cbn [negb];
      [| cbn [fst]; auto].
    destruct (get (pointerId ev) (pointers s)) as [meta |];
      [| cbn [fst]; auto].
    destruct (set_present (pointerId ev) (track (rel s ev) (type meta)) _ H)
      as [Sz _].
    reduce. destruct (_ && _).
    + destruct (get _ (startPos s)); [destruct (negb _ && _) |]; reduce;
        rewrite Sz; auto.
    + destruct (_ =? 2)%nat; [destruct (values _) as [| a [| b l]] |];
        reduce; rewrite Sz; auto.
  - unfold onPointerUp. destruct (negb (foamtree s)); [cbn [fst]; auto |].
    reduce. destruct (_ =? 0)%nat; reduce;
      (split; [apply size_delete_le | reflexivity]).
  - unfold onPointerUp. destruct (negb (foamtree s)); [cbn [fst]; auto |].
    reduce. destruct (_ =? 0)%nat; reduce;
      (split; [apply size_delete_le | reflexivity]).
  - rewrite onWheel_state. auto.
Qed.

Lemma quiet_run (es : list DomEvent) (s : State) :
  Forall (fun e => records e = false) es ->
  (size (pointers (fst (run es s))) <= size (pointers s))%nat
  /\ baseDist (fst (run es s)) = baseDist s.
Proof.
  intros Q. revert s. induction Q as [| e es Qe Qes IH]; intros s; [cbn; auto |].
  rewrite run_cons. cbn [fst].
  destruct (IH (fst (dispatch e s))) as [L B].
  destruct (quiet_step e s Qe) as [L' B']. split; [lia | congruence].
Qed.


Lemma reachable_run (es : list DomEvent) (s : State) :
  reachable s -> reachable (fst (run es s)).
Proof.
  intros (r & es0 & <-). exists r, (es0 ++ es). now rewrite run_app.
Qed.



(** ** Buttons, the wheel, and the return to idle *)

(** C6, at the input where the code departs from it: a secondary mouse
    button goes down (dropped by [onPointerDown]) and up again, and
    [onPointerUp], which tests neither the button nor whether the pointer is
    tracked, triggers a [click]. *)
Theorem C6_secondary_button_release_clicks :
  run [pointerdown (ptr 1 mouse 2 10 10)] (mounted origin)
  = (mounted origin, [])
  /\ snd (run [pointerdown (ptr 1 mouse 2 10 10);
               pointerup (ptr 1 mouse 2 10 10)] (mounted origin))
     = [trigger click (plain {| x := 10%float; y := 10%float |})].
Proof. split; vm_compute; reflexivity. Qed.

Lemma wheels_run (ws : list WheelEvent) (s : State) :
  run (map wheel ws) s
  = (s, concat (map (fun w => snd (dispatch (wheel w) s)) ws)).
Proof.
  induction ws as [| w ws IH]; [reflexivity |].
  rewrite map_cons, run_cons. cbn [dispatch]. rewrite onWheel_state, IH.
  reflexivity.
Qed.

(** C7: a wheel event leaves the translator's state as it was and triggers
    [transformstart], [transform], [transformend], all three at the cursor
    position; the scale is 1.03, which is above 1, for a negative [deltaY]
    and 0.97, which is below 1, for a positive one; and a burst of wheel
    events triggers, event by event, what each of them triggers alone. *)
Theorem C7_wheel_is_one_bracket (s : State) (w : WheelEvent)
    (ws : list WheelEvent) :
  reachable s ->
  (exists sc,
     dispatch (wheel w) s
     = (s, [trigger transformstart (second (relW s w));
            trigger transform (scaled (relW s w) sc);
            trigger transformend (second (relW s w))])
     /\ ((deltaY w <? 0)%float = true ->
         sc = 1.03%float /\ (1 <? sc)%float = true)
     /\ ((0 <? deltaY w)%float = true ->
         sc = 0.97%float /\ (sc <? 1)%float = true))
  /\ run (map wheel ws) s
     = (s, concat (map (fun w' => snd (dispatch (wheel w') s)) ws)).
Proof.
  intros R. pose proof (c_foamtree s (reachable_consistent s R)) as F.
  split; [| apply wheels_run].
  cbn [dispatch]. unfold onWheel. rewrite F. cbn [negb].
  eexists. split; [reflexivity |]. split.
  - intros ->. split; reflexivity.
  - intros H%positive_not_negative. rewrite H. split; reflexivity.
Qed.

Lemma release_step (e : DomEvent) (k : Z) (s : State) :
  foamtree s = true -> released e = Some k ->
  pointers (fst (dispatch e s)) = delete k (pointers s).
Proof.
  intros F Re.
  assert (U : exists ev, dispatch e s = onPointerUp ev s /\ pointerId ev = k).
  { destruct e as [ev | ev | ev | ev | ev]; try discriminate Re;
      injection Re as <-; exists ev; split; reflexivity. }
  destruct U as (ev & -> & <-). unfold onPointerUp. rewrite F. reduce.
  now destruct (_ =? 0)%nat.
Qed.

(** After a run of releases, the pointers still tracked are pointers that
    were tracked before and that no release of the run reported. *)
Lemma releases_keys (us : list DomEvent) :
  Forall (fun e => released e <> None) us ->
  forall (s : State) (k : Z),
  consistent s ->
  In k (keys (pointers (fst (run us s)))) ->
  In k (keys (pointers s)) /\ ~ In (Some k) (map released us).
Proof.
  induction 1 as [| e us He Hus IH]; intros s k C I; [cbn in *; tauto |].
  rewrite run_cons in I. cbn [fst] in I.
  destruct (released e) as [k0 |] eqn:Re; [| congruence].
  destruct (IH _ k (dispatch_consistent e s C) I) as [I1 N1].
  rewrite (release_step e k0 s (c_foamtree s C) Re) in I1.
  rewrite keys_delete_filter in I1. apply filter_In in I1 as [I1 Nk].
  split; [exact I1 |]. cbn [map In]. rewrite Re.
  intros [E | E]; [| tauto].
  injection E as ->. rewrite Z.eqb_refl in Nk. discriminate Nk.
Qed.

Lemma released_quiet (us : list DomEvent) :
  Forall (fun e => released e <> None) us ->
  Forall (fun e => records e = false) us.
Proof.
  apply Forall_impl. intros [ev | ev | ev | ev | ev] H; try reflexivity.
  now contradiction H.
Qed.

Lemma cancel_as_up_run (es : list DomEvent) (s : State) :
  run (map cancel_as_up es) s = run es s.
Proof.
  revert s; induction es as [| e es IH]; intros s; [reflexivity |].
  rewrite map_cons, !run_cons.
  assert (D : dispatch (cancel_as_up e) s = dispatch e s) by now destruct e.
  now rewrite D, IH.
Qed.

(** C8: from every reachable state, whatever it is, once [pointerup] or
    [pointercancel] events have reported every tracked pointer, both maps
    are empty and both flags are false; the state is the mounted one up to
    the stale [baseDist], and it answers every further event sequence with
    the triggers the mounted state gives.  A [pointercancel] is handled as
    the [pointerup] of the same event: exchanging one for the other changes
    nothing in any run. *)
Theorem C8_release_returns_to_idle (s : State) (us : list DomEvent) :
  reachable s ->
  Forall (fun e => released e <> None) us ->
  (forall k, In k (keys (pointers s)) -> In (Some k) (map released us)) ->
  let s' := fst (run us s) in
  pointers s' = [] /\ startPos s' = []
  /\ dragging s' = false /\ transforming s' = false
  /\ (exists r, s' = idle r (baseDist s)
                /\ forall es, snd (run es s') = snd (run es (mounted r)))
  /\ (forall es s0, run (map cancel_as_up es) s0 = run es s0).
Proof.
  intros R Hus Hall s'.
  assert (P : pointers s' = []).
  { apply keys_nil. destruct (keys (pointers s')) as [| k l] eqn:K;
      [reflexivity |].
    destruct (releases_keys us Hus s k (reachable_consistent s R)) as [I N].
    - fold s'. rewrite K. now left.
    - destruct (N (Hall k I)). }
  assert (Z0 : size (pointers s') = 0%nat) by now rewrite P.
  destruct (idle_like_mounted s' (reachable_run us s R) Z0) as (r & I & E).
  assert (B : baseDist s' = baseDist s)
    by apply (quiet_run us s (released_quiet us Hus)).
  rewrite B in I.
  split; [exact P |].
  split; [rewrite I; reflexivity |].
  split; [rewrite I; reflexivity |].
  split; [rewrite I; reflexivity |].
  split; [exists r; split; assumption | exact cancel_as_up_run].
Qed.

Lemma dist_same (a b : Point) :
  is_finite (x a) = true -> is_finite (y a) = true ->
  x b = x a -> y b = y a -> dist a b = 0%float.
Proof.
  intros Fx Fy Ex Ey. unfold dist. rewrite Ex, Ey, !sub_self by assumption.
  apply hypot_zero.
Qed.

(** C9: when the second pointer goes down exactly where the first one is,
    the recorded baseline is 0, and every following move of either pointer
    triggers one [transform] whose scale is a quotient by that 0, hence not a
    finite number. *)
Theorem C9_coincident_pointers_non_finite_scale (s : State) (k1 : Z)
    (t1 : Tracked) (d : PointerEvent) (ms : list PointerEvent) :
  reachable s -> pointers s = [(k1, t1)] ->
  accepted d = true -> pointerId d <> k1 ->
  is_finite (px t1) = true -> is_finite (py t1) = true ->
  x (rel s d) = px t1 -> y (rel s d) = py t1 ->
  Forall (fun e => pointerId e = k1 \/ pointerId e = pointerId d) ms ->
  let s1 := fst (onPointerDown d s) in
  let t := snd (run (map pointermove ms) s1) in
  baseDist s1 = 0%float
  /\ length t = length ms
  /\ Forall (fun tr =>
               verb tr = transform
               /\ exists v sc, scale (payload tr) = Some sc
                               /\ sc = (v / 0)%float
                               /\ is_finite sc = false) t.
Proof.
  intros R P A N Fx Fy Ex Ey Hms s1 t. subst t s1.
  pose proof (c_foamtree s (reachable_consistent s R)) as F.
  rewrite (down_second s k1 t1 d F P A N). cbn [fst].
  set (s1 := with_transforming true _).
  assert (B : baseDist s1 = 0%float).
  { subst s1. cbn [baseDist with_transforming with_baseDist].
    now apply dist_same. }
  destruct (moves_pair k1 (pointerId d) ms (not_eq_sym N) Hms s1 t1
              (track (rel s d) (pointerType d)) F eq_refl)
    as (_ & _ & _ & _ & T & L).
  repeat split; auto.
  rewrite B in T. revert T. apply Forall_impl.
  intros tr (p & v & ->). split; [reflexivity |].
  exists v, (v / 0)%float. repeat split. apply div_zero_not_finite.
Qed.

End WithEngine.

(** ** Runs under V8 *)

#[local] Existing Instance V8.

(** A move to (0.5, 5.979130371550699) from a start at the origin: V8's
    [Math.hypot] gives 6.000000000000001, which is above [TAP_TOLERANCE],
    and the move starts a drag. *)
Example move_just_beyond_tolerance :
  let p := {| x := 0.5%float; y := 5.979130371550699%float |} in
  run [pointerdown (ptr 1 touch 0 0 0);
       pointermove (ptr 1 touch 0 0.5 5.979130371550699);
       pointerup (ptr 1 touch 0 0.5 5.979130371550699)] (mounted origin)
  = (mounted origin,
     [trigger dragstart (plain p); trigger drag (plain p);
      trigger dragend (plain p)]).
Proof. vm_compute. reflexivity. Qed.

(** C1, as stated, fails on the code.  After two pointers went down and one
    of them was released, one pointer is active and [transforming] is still
    true; after a drag began and a second pointer went down, two pointers are
    active and [dragging] is still true. *)
Lemma C1_counterexample :
  ~ transforming_iff_two
      (fst (run [pointerdown (ptr 1 touch 0 10 10);
                 pointerdown (ptr 2 touch 0 50 10);
                 pointerup (ptr 2 touch 0 50 10)] (mounted origin)))
  /\ ~ dragging_only_single_moved
        (fst (run [pointerdown (ptr 1 touch 0 10 10);
                   pointermove (ptr 1 touch 0 30 10);
                   pointerdown (ptr 2 touch 0 50 10)] (mounted origin))).
Proof.
  split.
  - intros [H _]. specialize (H eq_refl). vm_compute in H. lia.
  - intros H. destruct (H eq_refl) as (k & t & s0 & E & _).
    vm_compute in E. discriminate E.
Qed.

Lemma C1_flags_follow_pointers_witness :
  (let s := fst (run [pointerdown (ptr 1 touch 0 10 10);
                      pointerdown (ptr 2 touch 0 50 10)] (mounted origin)) in
   transforming s = true /\ (1 <= size (pointers s))%nat)
  /\ (let s := fst (run [pointerdown (ptr 1 touch 0 10 10);
                         pointermove (ptr 1 touch 0 30 10)] (mounted origin)) in
      dragging s = true /\ (1 <= size (pointers s))%nat)
  /\ (let s := fst (run [pointerdown (ptr 1 touch 0 10 10)] (mounted origin)) in
      exists ev s0,
        pointermove (ptr 1 touch 0 30 10) = pointermove ev
        /\ size (pointers s) = 1%nat
        /\ transforming s = false
        /\ get (pointerId ev) (startPos s) = Some s0
        /\ (6 <? Math_hypot (x (rel s ev) - x s0)
                            (y (rel s ev) - y s0))%float = true)
  /\ (let s := fst (run [pointerdown (ptr 1 touch 0 10 10)] (mounted origin)) in
      dragging (fst (dispatch (pointermove (ptr 1 touch 0 30 10)) s)) = true).
Proof.
  split; [| split; [| split]].
  - destruct (C1_flags_follow_pointers
                (fst (run [pointerdown (ptr 1 touch 0 10 10);
                           pointerdown (ptr 2 touch 0 50 10)] (mounted origin))))
      as (A & B & _).
    + exists origin, [pointerdown (ptr 1 touch 0 10 10);
                      pointerdown (ptr 2 touch 0 50 10)]. reflexivity.
    + assert (T : transforming
                    (fst (run [pointerdown (ptr 1 touch 0 10 10);
                               pointerdown (ptr 2 touch 0 50 10)]
                              (mounted origin))) = true).
      { apply A. vm_compute. lia. }
      split; [exact T | exact (B T)].
  - destruct (C1_flags_follow_pointers
                (fst (run [pointerdown (ptr 1 touch 0 10 10);
                           pointermove (ptr 1 touch 0 30 10)] (mounted origin))))
      as (_ & _ & C & _).
    + exists origin, [pointerdown (ptr 1 touch 0 10 10);
                      pointermove (ptr 1 touch 0 30 10)]. reflexivity.
    + split; [reflexivity | apply C; reflexivity].
  - destruct (C1_flags_follow_pointers
                (fst (run [pointerdown (ptr 1 touch 0 10 10)] (mounted origin))))
      as (_ & _ & _ & D & _).
    + exists origin, [pointerdown (ptr 1 touch 0 10 10)]. reflexivity.
    + apply D; reflexivity.
  - destruct (C1_flags_follow_pointers
                (fst (run [pointerdown (ptr 1 touch 0 10 10)] (mounted origin))))
      as (_ & _ & _ & _ & E).
    + exists origin, [pointerdown (ptr 1 touch 0 10 10)]. reflexivity.
    + apply (E (ptr 1 touch 0 30 10)
               (rel (mounted origin) (ptr 1 touch 0 10 10))); reflexivity.
Defined.

Lemma C2_tap_is_one_click_witness :
  let s := fst (run [pointerdown (ptr 7 touch 0 50 50);
                     pointerup (ptr 7 touch 0 50 50)] (mounted origin)) in
  snd (run (pointerdown (ptr 1 mouse 0 10 10)
            :: map pointermove [ptr 1 mouse 0 12 11]
            ++ [pointerup (ptr 1 mouse 0 12 11)]) s)
  = [trigger click (plain (rel s (ptr 1 mouse 0 12 11)))].
Proof.
  apply C2_tap_is_one_click.
  - exists origin, [pointerdown (ptr 7 touch 0 50 50);
                    pointerup (ptr 7 touch 0 50 50)]. reflexivity.
  - reflexivity.
  - repeat constructor.
  - reflexivity.
  - repeat constructor.
Defined.

Lemma C3_drag_is_bracketed_witness :
  let s := fst (run [pointerdown (ptr 7 touch 0 50 50);
                     pointerup (ptr 7 touch 0 50 50)] (mounted origin)) in
  let d := ptr 1 touch 0 0 0 in
  let u := ptr 1 touch 0 25 0 in
  let ms := [ptr 1 touch 0 3 0; ptr 1 touch 0 20 0; ptr 1 touch 0 25 0] in
  let t := snd (run (pointerdown d :: map pointermove ms ++ [pointerup u])
                    s) in
  (exists ms1 m ms2,
     ms = ms1 ++ m :: ms2
     /\ Forall (fun e => (6 <? Math_hypot (x (rel s e) - x (rel s d))
                                          (y (rel s e) - y (rel s d)))%float
                         = false) ms1
     /\ (6 <? Math_hypot (x (rel s m) - x (rel s d))
                         (y (rel s m) - y (rel s d)))%float = true
     /\ t = trigger dragstart (plain (rel s m))
            :: map (fun e => trigger drag (plain (rel s e))) (m :: ms2)
            ++ [trigger dragend (plain (rel s u))])
  /\ precedes dragstart drag t
  /\ count dragstart t = 1%nat
  /\ (1 <= count drag t)%nat
  /\ count dragend t = 1%nat
  /\ (exists t', t = t' ++ [trigger dragend (plain (rel s u))])
  /\ count click t = 0%nat.
Proof.
  apply C3_drag_is_bracketed.
  - exists origin, [pointerdown (ptr 7 touch 0 50 50);
                    pointerup (ptr 7 touch 0 50 50)]. reflexivity.
  - reflexivity.
  - reflexivity.
  - repeat constructor.
  - reflexivity.
  - apply Exists_cons_tl, Exists_cons_hd. vm_compute. reflexivity.
Defined.





Lemma C7_wheel_is_one_bracket_witness :
  let s := fst (run [pointerdown (ptr 1 touch 0 10 10)] (mounted origin)) in
  let w := {| wClientX := 30%float; wClientY := 40%float;
              deltaY := (-120)%float |} in
  let ws := [w; {| wClientX := 30%float; wClientY := 40%float;
                   deltaY := 120%float |}] in
  (exists sc,
     dispatch (wheel w) s
     = (s, [trigger transformstart (second (relW s w));
            trigger transform (scaled (relW s w) sc);
            trigger transformend (second (relW s w))])
     /\ ((deltaY w <? 0)%float = true ->
         sc = 1.03%float /\ (1 <? sc)%float = true)
     /\ ((0 <? deltaY w)%float = true ->
         sc = 0.97%float /\ (sc <? 1)%float = true))
  /\ run (map wheel ws) s
     = (s, concat (map (fun w' => snd (dispatch (wheel w') s)) ws)).
Proof.
  apply C7_wheel_is_one_bracket.
  exists origin, [pointerdown (ptr 1 touch 0 10 10)]. reflexivity.
Defined.

Lemma C8_release_returns_to_idle_witness :
  let s := fst (run [pointerdown (ptr 1 touch 0 10 10);
                     pointermove (ptr 1 touch 0 40 10);
                     pointerdown (ptr 2 touch 0 50 10)] (mounted origin)) in
  let us := [pointerup (ptr 1 touch 0 40 10);
             pointercancel (ptr 2 touch 0 50 10)] in
  let s' := fst (run us s) in
  pointers s' = [] /\ startPos s' = []
  /\ dragging s' = false /\ transforming s' = false
  /\ (exists r, s' = idle r (baseDist s)
                /\ forall es, snd (run es s') = snd (run es (mounted r)))
  /\ (forall es s0, run (map cancel_as_up es) s0 = run es s0).
Proof.
  apply C8_release_returns_to_idle.
  - exists origin, [pointerdown (ptr 1 touch 0 10 10);
                    pointermove (ptr 1 touch 0 40 10);
                    pointerdown (ptr 2 touch 0 50 10)]. reflexivity.
  - repeat constructor; discriminate.
  - intros k I. vm_compute in I. destruct I as [<- | [<- | []]].
    + left. reflexivity.
    + right. left. reflexivity.
Defined.

Lemma C9_coincident_pointers_non_finite_scale_witness :
  let s := fst (run [pointerdown (ptr 1 touch 0 10 10)] (mounted origin)) in
  let d := ptr 2 touch 0 10 10 in
  let ms := [ptr 2 touch 0 40 10; ptr 1 touch 0 40 10] in
  let s1 := fst (onPointerDown d s) in
  let t := snd (run (map pointermove ms) s1) in
  baseDist s1 = 0%float
  /\ length t = length ms
  /\ Forall (fun tr =>
               verb tr = transform
               /\ exists v sc, scale (payload tr) = Some sc
                               /\ sc = (v / 0)%float
                               /\ is_finite sc = false) t.
Proof.
  apply (C9_coincident_pointers_non_finite_scale
           (fst (run [pointerdown (ptr 1 touch 0 10 10)] (mounted origin)))
           1 (track (rel (mounted origin) (ptr 1 touch 0 10 10)) touch)
           (ptr 2 touch 0 10 10)
           [ptr 2 touch 0 40 10; ptr 1 touch 0 40 10]).
  - exists origin, [pointerdown (ptr 1 touch 0 10 10)]. reflexivity.
  - reflexivity.
  - reflexivity.
  - simpl. lia.
  - reflexivity.
  - reflexivity.
  - reflexivity.
  - reflexivity.
  - constructor; [right; reflexivity |].
    constructor; [left; reflexivity | constructor].
Defined.

End GestureFacts.

(** * Clustering: the similarity graph is built once *)

Module ClusteringFacts.
Import JS Clustering.

Section WithLibrary.

Variable SimilarityGraph : Type.
Variable edgeScores : SimilarityGraph -> list (list number).
Variable buildSimilarityGraph : list Uint8Array -> SimilarityGraph.
Variable clusterByThreshold : SimilarityGraph -> number -> list (list nat).
Variable mergeVectors : list (option Uint8Array) -> Uint8Array.

#[local] Abbreviation Props := (Props SimilarityGraph).
#[local] Abbreviation State := (State SimilarityGraph).
#[local] Abbreviation clusterResults :=
  (clusterResults SimilarityGraph edgeScores buildSimilarityGraph
     clusterByThreshold mergeVectors).
#[local] Abbreviation computeClusters :=
  (computeClusters SimilarityGraph clusterByThreshold mergeVectors).
#[local] Abbreviation onMounted :=
  (onMounted SimilarityGraph edgeScores buildSimilarityGraph
     clusterByThreshold mergeVectors).
#[local] Abbreviation moveSlider :=
  (moveSlider SimilarityGraph edgeScores buildSimilarityGraph
     clusterByThreshold mergeVectors).
#[local] Abbreviation moveSliders :=
  (moveSliders SimilarityGraph edgeScores buildSimilarityGraph
     clusterByThreshold mergeVectors).
#[local] Abbreviation scanScores := (scanScores SimilarityGraph edgeScores).
#[local] Abbreviation reclustered :=
  (reclustered SimilarityGraph clusterByThreshold mergeVectors).

Lemma first_run (p : Props) :
  let g := buildSimilarityGraph (vectors _ p) in
  clusterResults p (setup _ p)
  = ({| sliderSim := minClusterSim _ p;
        minFoundSim := Math_max (minSliderSim _ p None) (snd (scanScores g));
        maxFoundSim := fst (scanScores g);
        clusters := computeClusters p g (minClusterSim _ p);
        simGraph := Some g |},
     [similarityGraphBuilt _ g]).
Proof.
  unfold Clustering.clusterResults, setup. cbn [simGraph vectors].
  now destruct (scanScores _) as [mx mn].
Qed.

Lemma later_run (p : Props) (g : SimilarityGraph) (s : State) :
  simGraph _ s = Some g ->
  clusterResults p s = (reclustered p g s, []).
Proof.
  intros G. unfold Clustering.clusterResults, Clustering.reclustered.
  rewrite G.
  cbn. now rewrite G.
Qed.

Lemma moveSlider_keeps (p : Props) (g : SimilarityGraph) (v : number)
    (s : State) :
  simGraph _ s = Some g ->
  simGraph _ (fst (moveSlider p v s)) = Some g
  /\ minFoundSim _ (fst (moveSlider p v s)) = minFoundSim _ s
  /\ maxFoundSim _ (fst (moveSlider p v s)) = maxFoundSim _ s
  /\ snd (moveSlider p v s) = [].
Proof.
  intros G. unfold Clustering.moveSlider, sliderWatcher.
  destruct (Leibniz.eqb v (sliderSim _ s)); [auto |].
  cbn [sliderSim]. destruct (strict_neq v (minClusterSim _ p)); [| auto].
  rewrite (later_run p g) by exact G. auto.
Qed.

Lemma moveSliders_keep (p : Props) (g : SimilarityGraph) (vs : list number) :
  forall s : State,
  simGraph _ s = Some g ->
  simGraph _ (fst (moveSliders p vs s)) = Some g
  /\ minFoundSim _ (fst (moveSliders p vs s)) = minFoundSim _ s
  /\ maxFoundSim _ (fst (moveSliders p vs s)) = maxFoundSim _ s
  /\ snd (moveSliders p vs s) = [].
Proof.
  induction vs as [| v vs IH]; intros s G; [cbn; auto |].
  cbn [Clustering.moveSliders].
  destruct (moveSlider_keeps p g v s G) as (G1 & Mn & Mx & O).
  destruct (moveSlider p v s) as [s1 o1]. cbn [fst snd] in *.
  destruct (IH s1 G1) as (G2 & Mn2 & Mx2 & O2).
  destruct (moveSliders p vs s1) as [s2 o2]. cbn [fst snd] in *.
  subst. repeat split; auto; congruence.
Qed.

(** C10: the first clustering run builds the graph, sets the slider bounds
    from it and emits [similarityGraphBuilt] once; whatever the slider does
    afterwards, the graph and the bounds stay as they are and nothing more is
    emitted; and a clustering run on a state that holds the graph changes the
    cluster list only. *)
Theorem C10_graph_built_once (p : Props) (vs : list number) :
  let g := buildSimilarityGraph (vectors _ p) in
  let first := onMounted p (setup _ p) in
  let later := moveSliders p vs (fst first) in
  (simGraph _ (fst first) = Some g
   /\ minFoundSim _ (fst first)
      = Math_max (minSliderSim _ p None) (snd (scanScores g))
   /\ maxFoundSim _ (fst first) = fst (scanScores g)
   /\ snd first = [similarityGraphBuilt _ g])
  /\ (simGraph _ (fst later) = Some g
      /\ minFoundSim _ (fst later) = minFoundSim _ (fst first)
      /\ maxFoundSim _ (fst later) = maxFoundSim _ (fst first)
      /\ snd later = [])
  /\ (forall s : State, simGraph _ s = Some g ->
        clusterResults p s = (reclustered p g s, [])).
Proof.
  intros g first later. subst later first. unfold Clustering.onMounted.
  rewrite first_run. fold g. cbn [fst snd simGraph minFoundSim maxFoundSim].
  split; [auto |]. split; [| apply later_run].
  apply (moveSliders_keep p g vs). reflexivity.
Qed.

End WithLibrary.

End ClusteringFacts.

(** * The gesture translator: further behaviour *)

Module GestureMore.
Import JS Gesture MapFacts NumberFacts GestureFacts.

#[local] Arguments dist : simpl never.
#[local] Arguments Math_hypot : simpl never.

Section WithEngine.
Context {engine : Engine}.

(** In every reachable state the two maps hold the same keys in the same
    order, no key twice, so that every tracked pointer has a recorded start
    position: the read [startPos.get(ev.pointerId)!] of [onPointerMove]
    always finds one. *)
Theorem tracked_pointer_has_start (s : State) (k : Z) :
  reachable s ->
  keys (pointers s) = keys (startPos s)
  /\ NoDup (keys (pointers s))
  /\ (has k (pointers s) = true -> exists p0, get k (startPos s) = Some p0).
Proof.
  intros R. pose proof (c_keys s (reachable_consistent s R)) as K.
  repeat split; [exact K | |].
  - destruct R as (r & es & <-). apply run_keys_NoDup. constructor.
  - intros H. apply in_keys_get. rewrite <- K. now apply has_in_keys.
Qed.

(** A pointer is tracked only after a [pointerdown] that passed the button
    test reported it: whatever the events, every key of [pointers] is the
    [pointerId] of such an event of the run. *)
Theorem tracked_only_after_accepted_down (r : DOMRect) (es : list DomEvent)
    (k : Z) :
  In k (keys (pointers (fst (run es (mounted r))))) ->
  exists ev, In (pointerdown ev) es /\ accepted ev = true /\ pointerId ev = k.
Proof.
  assert (G : forall es s,
    In k (keys (pointers (fst (run es s)))) ->
    In k (keys (pointers s))
    \/ exists ev, In (pointerdown ev) es /\ accepted ev = true
                  /\ pointerId ev = k).
  { clear es. induction es as [| e es IH]; intros s I; [now left |].
    rewrite run_cons in I. cbn [fst] in I.
    destruct (IH _ I) as [I1 | (ev & I1 & A & E)].
    - destruct (dispatch_keys e s)
        as [K | [(ev & v & -> & A & K) | (ev & _ & K)]]; rewrite K in I1.
      + now left.
      + apply in_keys_set in I1 as [-> | I1]; [| now left].
        right. exists ev. repeat split; auto. now left.
      + left. eapply in_keys_delete, I1.
    - right. exists ev. repeat split; auto. now right. }
  intros I. destruct (G es (mounted r) I) as [[] | H]. exact H.
Qed.

(** ** No end without a start *)

Ltac split_handler :=
  repeat (reduce;
          match goal with
          | |- context [if ?b then _ else _] => destruct b eqn:?
          | |- context [match ?v with _ => _ end] => destruct v eqn:?
          end).

Ltac unfold_handler e :=
  destruct e as [? | ? | ? | ? | ?]; cbn [dispatch];
  [unfold onPointerDown | unfold onPointerMove | unfold onPointerUp
  | unfold onPointerUp | unfold onWheel].

Section Opened.

(** [b] is triggered only while [flag] is up, and [flag] goes up only with a
    trigger of [a]. *)
Variables a b : Verb.
Variable flag : State -> bool.
Hypothesis step : forall e s,
  flag s = false ->
  guarded a b false (verbs (snd (dispatch e s))) = true
  /\ (flag (fst (dispatch e s)) = true ->
      seen_in a false (verbs (snd (dispatch e s))) = true).

Lemma run_opened (es : list DomEvent) (s : State) (seen : bool) :
  (flag s = true -> seen = true) ->
  guarded a b seen (verbs (snd (run es s))) = true.
Proof.
  revert s seen; induction es as [| e es IH]; intros s seen S;
    [reflexivity |].
  rewrite run_cons. cbn [snd]. unfold verbs. rewrite map_app, guarded_app.
  destruct seen.
  - rewrite guarded_true. cbn [andb]. apply IH. intros _. reflexivity.
  - destruct (flag s) eqn:Fl; [discriminate (S eq_refl) |].
    destruct (step e s Fl) as [G T]. unfold verbs in G. rewrite G.
    cbn [andb]. apply IH. exact T.
Qed.

End Opened.

Lemma drag_step (b : Verb) (e : DomEvent) (s : State) :
  b = drag \/ b = dragend ->
  dragging s = false ->
  guarded dragstart b false (verbs (snd (dispatch e s))) = true
  /\ (dragging (fst (dispatch e s)) = true ->
      seen_in dragstart false (verbs (snd (dispatch e s))) = true).
Proof.
  intros B D. unfold seen_in.
  unfold_handler e; split_handler; reduce; rewrite ?D in *;
    (split; [| intros; try reflexivity; congruence]);
    destruct B as [-> | ->]; reflexivity.
Qed.

Lemma transformend_step (e : DomEvent) (s : State) :
  transforming s = false ->
  guarded transformstart transformend false (verbs (snd (dispatch e s))) = true
  /\ (transforming (fst (dispatch e s)) = true ->
      seen_in transformstart false (verbs (snd (dispatch e s))) = true).
Proof.
  intros T. unfold seen_in.
  unfold_handler e; split_handler; reduce; rewrite ?T in *;
    (split; [| intros; try reflexivity; congruence]); reflexivity.
Qed.

(** Whatever the events, no [drag] and no [dragend] is triggered before a
    [dragstart], and no [transformend] before a [transformstart]. *)
Theorem no_end_without_start (r : DOMRect) (es : list DomEvent) :
  let t := snd (run es (mounted r)) in
  precedes dragstart drag t
  /\ precedes dragstart dragend t
  /\ precedes transformstart transformend t.
Proof.
  cbn zeta. repeat split; apply guarded_precedes.
  - apply (run_opened dragstart drag dragging);
      [intros e s; apply drag_step; now left | discriminate].
  - apply (run_opened dragstart dragend dragging);
      [intros e s; apply drag_step; now right | discriminate].
  - apply (run_opened transformstart transformend transforming);
      [apply transformend_step | discriminate].
Qed.

(** ** Moves that trigger nothing, and moves that always trigger *)

Lemma tracked_has_start (s : State) (k : Z) :
  reachable s -> has k (pointers s) = true ->
  exists p0, get k (startPos s) = Some p0.
Proof.
  intros R H. apply in_keys_get.
  rewrite <- (c_keys s (reachable_consistent s R)). now apply has_in_keys.
Qed.

Lemma move_outcome (ev : PointerEvent) (s : State) :
  foamtree s = true -> has (pointerId ev) (pointers s) = true ->
  exists meta,
    get (pointerId ev) (pointers s) = Some meta
    /\ size (set (pointerId ev) (track (rel s ev) (type meta)) (pointers s))
       = size (pointers s).
Proof.
  intros F H. unfold has in H.
  destruct (get (pointerId ev) (pointers s)) as [meta |] eqn:G;
    [| discriminate].
  exists meta. split; [reflexivity |].
  apply set_present. unfold has. now rewrite G.
Qed.

(** With three or more active pointers a move triggers nothing and leaves
    both flags as they are. *)
Theorem move_with_three_pointers_is_silent (s : State) (ev : PointerEvent) :
  reachable s -> (3 <= size (pointers s))%nat ->
  snd (dispatch (pointermove ev) s) = []
  /\ dragging (fst (dispatch (pointermove ev) s)) = dragging s
  /\ transforming (fst (dispatch (pointermove ev) s)) = transforming s.
Proof.
  intros R L. pose proof (c_foamtree s (reachable_consistent s R)) as F.
  cbn [dispatch]. unfold onPointerMove. rewrite F. cbn [negb].
  destruct (has (pointerId ev) (pointers s)) eqn:H; [| now cbn].
  destruct (move_outcome ev s F H) as (meta & -> & Sz). cbn [negb].
  reduce. rewrite Sz.
  destruct (Nat.eqb_spec (size (pointers s)) 1); [lia |].
  destruct (Nat.eqb_spec (size (pointers s)) 2); [lia |].
  now cbn.
Qed.

(** While [transforming] is up, the moves of a lone pointer trigger nothing:
    after one of two pointers is released, the one that stays down cannot
    start a drag until it is released too. *)
Theorem move_after_pinch_is_silent (s : State) (ev : PointerEvent) :
  reachable s -> size (pointers s) = 1%nat -> transforming s = true ->
  snd (dispatch (pointermove ev) s) = []
  /\ dragging (fst (dispatch (pointermove ev) s)) = dragging s
  /\ transforming (fst (dispatch (pointermove ev) s)) = true.
Proof.
  intros R L T. pose proof (c_foamtree s (reachable_consistent s R)) as F.
  cbn [dispatch]. unfold onPointerMove. rewrite F. cbn [negb].
  destruct (has (pointerId ev) (pointers s)) eqn:H; [| now cbn].
  destruct (move_outcome ev s F H) as (meta & -> & Sz). cbn [negb].
  reduce. rewrite Sz, L, T. now cbn.
Qed.

(** Once a drag is on, every move of the lone pointer triggers exactly one
    [drag] at the reported position and keeps the drag on, however close to
    the start position the pointer has come back. *)
Theorem move_while_dragging_drags (s : State) (ev : PointerEvent) :
  reachable s -> size (pointers s) = 1%nat ->
  has (pointerId ev) (pointers s) = true ->
  dragging s = true -> transforming s = false ->
  snd (dispatch (pointermove ev) s) = [trigger drag (plain (rel s ev))]
  /\ dragging (fst (dispatch (pointermove ev) s)) = true.
Proof.
  intros R L H D T. pose proof (c_foamtree s (reachable_consistent s R)) as F.
  destruct (tracked_has_start s (pointerId ev) R H) as [p0 G0].
  cbn [dispatch]. unfold onPointerMove. rewrite F, H. cbn [negb].
  destruct (move_outcome ev s F H) as (meta & -> & Sz).
  reduce. rewrite Sz, L, T, G0, D. cbn -[set dist ltb].
  rewrite D. split; reflexivity.
Qed.

(** ** A further pointer *)

Lemma values_set_absent {V : Type} (k : Z) (v : V) (m : Map V) :
  has k m = false -> values (set k v m) = values m ++ [v].
Proof.
  unfold has. induction m as [| [k1 v1] m IH];
    cbn [get set values map snd app]; [reflexivity |].
  destruct (k1 =? k); [discriminate |].
  intros H. cbn [map snd]. f_equal. now apply IH.
Qed.

(** When a new pointer goes down while two or more are tracked, the
    translator triggers [transformstart] once more, at the first tracked
    pointer's position, and takes the baseline anew from the first two
    tracked pointers: the position of the new pointer plays no part, and
    [dragging] is left as it is. *)
Theorem further_pointer_restarts_transform (s : State) (d : PointerEvent)
    (k1 k2 : Z) (t1 t2 : Tracked) (rest : Map Tracked) :
  reachable s -> pointers s = (k1, t1) :: (k2, t2) :: rest ->
  accepted d = true -> has (pointerId d) (pointers s) = false ->
  let o := dispatch (pointerdown d) s in
  snd o = [trigger transformstart (second (xy t1))]
  /\ baseDist (fst o) = dist (xy t1) (xy t2)
  /\ transforming (fst o) = true
  /\ dragging (fst o) = dragging s
  /\ size (pointers (fst o)) = S (size (pointers s)).
Proof.
  intros R P A H o. subst o.
  pose proof (c_foamtree s (reachable_consistent s R)) as F.
  unfold accepted in A. apply negb_true_iff in A.
  cbn [dispatch]. unfold onPointerDown. rewrite F, A. cbn [negb].
  reduce.
  pose proof (values_set_absent (pointerId d)
                (track (rel s d) (pointerType d)) _ H) as Vs.
  pose proof (f_equal (@length Z)
                (keys_set_absent (pointerId d)
                   (track (rel s d) (pointerType d)) _ H)) as Ks.
  unfold keys in Ks. rewrite length_app, !length_map in Ks. cbn in Ks.
  fold (size (pointers s)) in Ks.
  fold (size (set (pointerId d) (track (rel s d) (pointerType d))
                  (pointers s))) in Ks.
  rewrite Vs, Ks, P. cbn [values map snd app size length].
  destruct (Nat.leb_spec 2 (S (S (length rest)) + 1)); [| lia].
  reduce. repeat split. rewrite <- P, Ks, P. cbn [size length]. lia.
Qed.

(** ** A whole two-pointer gesture *)

Lemma moves_pair_frame (k1 k2 : Z) (ms : list PointerEvent) :
  k1 <> k2 ->
  Forall (fun m => pointerId m = k1 \/ pointerId m = k2) ms ->
  forall (s : State) (t1 t2 : Tracked),
  foamtree s = true -> pointers s = [(k1, t1); (k2, t2)] ->
  exists a b,
    fst (run (map pointermove ms) s) = with_pointers [(k1, a); (k2, b)] s
    /\ Forall (fun tr => verb tr = transform)
              (snd (run (map pointermove ms) s))
    /\ length (snd (run (map pointermove ms) s)) = length ms.
Proof.
  intros N. induction 1 as [| m ms Hm Hms IH]; intros s t1 t2 F P.
  - exists t1, t2. cbn [map run fst snd length]. rewrite <- P.
    repeat split; [now destruct s | constructor].
  - rewrite map_cons, run_cons. cbn [dispatch].
    rewrite (move_pair s k1 k2 t1 t2 m F P N Hm). cbn [fst snd].
    set (s1 := with_pointers _ s).
    destruct (IH s1 _ _ F eq_refl) as (a & b & -> & T & L).
    exists a, b. repeat split.
    + constructor; [reflexivity | exact T].
    + cbn [app length]. now rewrite L.
Qed.

Lemma up_while_transforming (s : State) (u : PointerEvent) :
  foamtree s = true -> transforming s = true -> dragging s = false ->
  onPointerUp u s
  = ((if (size (delete (pointerId u) (pointers s)) =? 0)%nat
      then with_transforming false
             (with_dragging false
                (with_maps (delete (pointerId u) (pointers s))
                           (delete (pointerId u) (startPos s)) s))
      else with_maps (delete (pointerId u) (pointers s))
                     (delete (pointerId u) (startPos s)) s),
     [trigger transformend (plain (rel s u))]).
Proof.
  intros F T D. unfold onPointerUp. rewrite F, T, D. reduce.
  rewrite T, D. reflexivity.
Qed.

(** A second pointer goes down next to a tracked one that is not dragging,
    the two move, and both are released: the translator triggers one
    [transformstart], one [transform] per move, and one [transformend] per
    release (two in all), no [click] and no drag trigger; no pointer stays
    tracked and both flags are down again. *)
Theorem pinch_gesture_triggers (s : State) (k1 : Z) (t1 : Tracked)
    (d u1 u2 : PointerEvent) (ms : list PointerEvent) :
  reachable s -> pointers s = [(k1, t1)] -> dragging s = false ->
  accepted d = true -> pointerId d <> k1 ->
  Forall (fun m => pointerId m = k1 \/ pointerId m = pointerId d) ms ->
  (pointerId u1 = k1 /\ pointerId u2 = pointerId d)
  \/ (pointerId u1 = pointerId d /\ pointerId u2 = k1) ->
  let o := run (pointerdown d :: map pointermove ms
                ++ [pointerup u1; pointerup u2]) s in
  (exists T,
     snd o = trigger transformstart (second (xy t1)) :: T
             ++ [trigger transformend (plain (rel s u1));
                 trigger transformend (plain (rel s u2))]
     /\ Forall (fun tr => verb tr = transform) T
     /\ length T = length ms)
  /\ size (pointers (fst o)) = 0%nat
  /\ dragging (fst o) = false /\ transforming (fst o) = false.
Proof.
  intros R P D A N Hms Hu o. subst o.
  pose proof (c_foamtree s (reachable_consistent s R)) as F.
  rewrite run_cons, run_app. cbn [dispatch fst snd].
  rewrite (down_second s k1 t1 d F P A N). cbn [fst snd].
  set (s0 := with_transforming true _).
  destruct (moves_pair_frame k1 (pointerId d) ms (not_eq_sym N) Hms s0 t1
              (track (rel s d) (pointerType d)) F eq_refl)
    as (a & b & -> & T & L).
  set (Tm := snd (run (map pointermove ms) s0)) in *.
  assert (N1 : (k1 =? pointerId d) = false) by (apply Z.eqb_neq; congruence).
  assert (N2 : (pointerId d =? k1) = false) by now apply Z.eqb_neq.
  rewrite !run_cons. cbn [dispatch run fst snd].
  rewrite (up_while_transforming _ u1)
    by (first [exact F | reflexivity | exact D]).
  cbn [fst snd pointers with_pointers with_maps].
  destruct Hu as [[E1 E2] | [E1 E2]]; rewrite E1;
    cbn [delete]; rewrite ?Z.eqb_refl, ?N1, ?N2; cbn [size length Nat.eqb];
    rewrite (up_while_transforming _ u2)
      by (first [exact F | reflexivity | exact D]);
    cbn [fst snd pointers with_pointers with_maps]; rewrite E2;
    cbn [delete]; rewrite ?Z.eqb_refl, ?N1, ?N2; cbn [size length Nat.eqb];
    (split; [exists Tm; repeat split; auto | repeat split]).
Qed.

End WithEngine.

(** ** Runs under V8 *)

#[local] Existing Instance V8.

Lemma tracked_pointer_has_start_witness :
  let s := fst (run [pointerdown (ptr 1 touch 0 10 10);
                     pointerdown (ptr 2 touch 0 50 10)] (mounted origin)) in
  keys (pointers s) = keys (startPos s)
  /\ NoDup (keys (pointers s))
  /\ (has 2 (pointers s) = true -> exists p0, get 2 (startPos s) = Some p0).
Proof.
  apply tracked_pointer_has_start.
  exists origin, [pointerdown (ptr 1 touch 0 10 10);
                  pointerdown (ptr 2 touch 0 50 10)].
  reflexivity.
Defined.

Lemma tracked_only_after_accepted_down_witness :
  exists ev,
    In (pointerdown ev) [pointerdown (ptr 1 mouse 2 10 10);
                         pointerdown (ptr 1 mouse 0 10 10)]
    /\ accepted ev = true /\ pointerId ev = 1.
Proof.
  apply (tracked_only_after_accepted_down origin
           [pointerdown (ptr 1 mouse 2 10 10);
            pointerdown (ptr 1 mouse 0 10 10)] 1).
  vm_compute. now left.
Defined.

Lemma move_with_three_pointers_is_silent_witness :
  let s := fst (run [pointerdown (ptr 1 touch 0 10 10);
                     pointerdown (ptr 2 touch 0 50 10);
                     pointerdown (ptr 3 touch 0 90 10)] (mounted origin)) in
  let ev := ptr 2 touch 0 60 40 in
  snd (dispatch (pointermove ev) s) = []
  /\ dragging (fst (dispatch (pointermove ev) s)) = dragging s
  /\ transforming (fst (dispatch (pointermove ev) s)) = transforming s.
Proof.
  apply move_with_three_pointers_is_silent.
  - exists origin, [pointerdown (ptr 1 touch 0 10 10);
                    pointerdown (ptr 2 touch 0 50 10);
                    pointerdown (ptr 3 touch 0 90 10)]. reflexivity.
  - vm_compute. lia.
Defined.

Lemma move_after_pinch_is_silent_witness :
  let s := fst (run [pointerdown (ptr 1 touch 0 10 10);
                     pointerdown (ptr 2 touch 0 50 10);
                     pointerup (ptr 2 touch 0 50 10)] (mounted origin)) in
  let ev := ptr 1 touch 0 80 80 in
  snd (dispatch (pointermove ev) s) = []
  /\ dragging (fst (dispatch (pointermove ev) s)) = dragging s
  /\ transforming (fst (dispatch (pointermove ev) s)) = true.
Proof.
  apply move_after_pinch_is_silent.
  - exists origin, [pointerdown (ptr 1 touch 0 10 10);
                    pointerdown (ptr 2 touch 0 50 10);
                    pointerup (ptr 2 touch 0 50 10)]. reflexivity.
  - reflexivity.
  - reflexivity.
Defined.

Lemma move_while_dragging_drags_witness :
  let s := fst (run [pointerdown (ptr 1 touch 0 10 10);
                     pointermove (ptr 1 touch 0 40 10)] (mounted origin)) in
  let ev := ptr 1 touch 0 10 10 in
  snd (dispatch (pointermove ev) s) = [trigger drag (plain (rel s ev))]
  /\ dragging (fst (dispatch (pointermove ev) s)) = true.
Proof.
  apply move_while_dragging_drags.
  - exists origin, [pointerdown (ptr 1 touch 0 10 10);
                    pointermove (ptr 1 touch 0 40 10)]. reflexivity.
  - reflexivity.
  - reflexivity.
  - reflexivity.
  - reflexivity.
Defined.

Lemma further_pointer_restarts_transform_witness :
  let s := fst (run [pointerdown (ptr 1 touch 0 10 10);
                     pointerdown (ptr 2 touch 0 50 10)] (mounted origin)) in
  let d := ptr 3 touch 0 90 90 in
  let t1 := track (rel (mounted origin) (ptr 1 touch 0 10 10)) touch in
  let t2 := track (rel (mounted origin) (ptr 2 touch 0 50 10)) touch in
  let o := dispatch (pointerdown d) s in
  snd o = [trigger transformstart (second (xy t1))]
  /\ baseDist (fst o) = dist (xy t1) (xy t2)
  /\ transforming (fst o) = true
  /\ dragging (fst o) = dragging s
  /\ size (pointers (fst o)) = S (size (pointers s)).
Proof.
  apply (further_pointer_restarts_transform
           (fst (run [pointerdown (ptr 1 touch 0 10 10);
                      pointerdown (ptr 2 touch 0 50 10)] (mounted origin)))
           (ptr 3 touch 0 90 90) 1 2
           (track (rel (mounted origin) (ptr 1 touch 0 10 10)) touch)
           (track (rel (mounted origin) (ptr 2 touch 0 50 10)) touch) []).
  - exists origin, [pointerdown (ptr 1 touch 0 10 10);
                    pointerdown (ptr 2 touch 0 50 10)]. reflexivity.
  - reflexivity.
  - reflexivity.
  - reflexivity.
Defined.

Lemma pinch_gesture_triggers_witness :
  let s := fst (run [pointerdown (ptr 1 touch 0 10 10)] (mounted origin)) in
  let t1 := track (rel (mounted origin) (ptr 1 touch 0 10 10)) touch in
  let d := ptr 2 touch 0 50 10 in
  let u1 := ptr 2 touch 0 90 10 in
  let u2 := ptr 1 touch 0 10 10 in
  let ms := [ptr 2 touch 0 70 10; ptr 2 touch 0 90 10] in
  let o := run (pointerdown d :: map pointermove ms
                ++ [pointerup u1; pointerup u2]) s in
  (exists T,
     snd o = trigger transformstart (second (xy t1)) :: T
             ++ [trigger transformend (plain (rel s u1));
                 trigger transformend (plain (rel s u2))]
     /\ Forall (fun tr => verb tr = transform) T
     /\ length T = length ms)
  /\ size (pointers (fst o)) = 0%nat
  /\ dragging (fst o) = false /\ transforming (fst o) = false.
Proof.
  apply (pinch_gesture_triggers
           (fst (run [pointerdown (ptr 1 touch 0 10 10)] (mounted origin)))
           1 (track (rel (mounted origin) (ptr 1 touch 0 10 10)) touch)
           (ptr 2 touch 0 50 10) (ptr 2 touch 0 90 10) (ptr 1 touch 0 10 10)
           [ptr 2 touch 0 70 10; ptr 2 touch 0 90 10]).
  - exists origin, [pointerdown (ptr 1 touch 0 10 10)]. reflexivity.
  - reflexivity.
  - reflexivity.
  - reflexivity.
  - simpl. lia.
  - repeat (constructor; [right; reflexivity |]). constructor.
  - right. split; reflexivity.
Defined.

End GestureMore.

From Stdlib Require Import Permutation Sorted.

(** * Clustering: the cluster list *)

Module ClusteringMore.
Import JS Clustering.

(** ** The sort *)

Lemma insertByScore_perm (c : Cluster) (l : list Cluster) :
  Permutation (c :: l) (insertByScore c l).
Proof.
  induction l as [| d l IH]; cbn [insertByScore]; [reflexivity |].
  destruct (score d <=? score c)%nat; [reflexivity |].
  rewrite perm_swap. now apply perm_skip.
Qed.

Lemma insertByScore_sorted (c : Cluster) (l : list Cluster) :
  StronglySorted (fun a b => (score b <= score a)%nat) l ->
  StronglySorted (fun a b => (score b <= score a)%nat) (insertByScore c l).
Proof.
  induction 1 as [| d l Sl IH Hd]; cbn [insertByScore].
  - repeat constructor.
  - destruct (Nat.leb_spec (score d) (score c)) as [L | L].
    + constructor; [now constructor |].
      constructor; [exact L |].
      eapply Forall_impl; [| exact Hd]. cbn. intros; lia.
    + constructor; [exact IH |].
      rewrite <- (insertByScore_perm c l). constructor; [lia | exact Hd].
Qed.

Lemma insertByScore_filter (k : nat) (c : Cluster) (l : list Cluster) :
  filter (fun d => (score d =? k)%nat) (insertByScore c l)
  = filter (fun d => (score d =? k)%nat) (c :: l).
Proof.
  induction l as [| d l IH]; cbn [insertByScore]; [reflexivity |].
  destruct (Nat.leb_spec (score d) (score c)) as [L | L]; [reflexivity |].
  cbn [filter] in *. rewrite IH.
  destruct (Nat.eqb_spec (score c) k) as [E | E]; [| reflexivity].
  destruct (Nat.eqb_spec (score d) k) as [E' | E']; [lia | reflexivity].
Qed.

(** [sort((a, b) => b.score - a.score)] keeps every cluster, orders them by
    descending score, and leaves clusters of equal score in the order they
    had. *)
Theorem sortByScore_stable_descending (l : list Cluster) :
  Permutation l (sortByScore l)
  /\ StronglySorted (fun a b => (score b <= score a)%nat) (sortByScore l)
  /\ (forall k, filter (fun d => (score d =? k)%nat) (sortByScore l)
                = filter (fun d => (score d =? k)%nat) l).
Proof.
  unfold sortByScore. induction l as [| c l (P & S & F)]; cbn [fold_right].
  - repeat split; constructor.
  - repeat split.
    + rewrite <- insertByScore_perm. now apply perm_skip.
    + now apply insertByScore_sorted.
    + intros k. rewrite insertByScore_filter. cbn [filter]. now rewrite F.
Qed.

Lemma sortByScore_perm_sorted (l : list Cluster) :
  Permutation l (sortByScore l)
  /\ StronglySorted (fun a b => (score b <= score a)%nat) (sortByScore l).
Proof.
  unfold sortByScore. induction l as [| c l [P S]]; cbn [fold_right].
  - split; constructor.
  - split; [| now apply insertByScore_sorted].
    rewrite <- insertByScore_perm. now apply perm_skip.
Qed.

Lemma sorted_by_size (l : list Cluster) :
  StronglySorted (fun a b => (score b <= score a)%nat) l ->
  Forall (fun c => score c = length (indices c)) l ->
  StronglySorted
    (fun a b => (length (indices b) <= length (indices a))%nat) l.
Proof.
  induction 1 as [| a l Sl IH Ha]; intros Fa; [constructor |].
  inversion_clear Fa as [| ? ? Ea Fl].
  constructor; [now apply IH |].
  apply Forall_forall. intros b Hb.
  pose proof (proj1 (Forall_forall _ _) Ha b Hb) as Lb.
  pose proof (proj1 (Forall_forall _ _) Fl b Hb) as Eb.
  cbn beta in *. lia.
Qed.

Section WithLibrary.

Variable SimilarityGraph : Type.
Variable edgeScores : SimilarityGraph -> list (list number).
Variable buildSimilarityGraph : list Uint8Array -> SimilarityGraph.
Variable clusterByThreshold : SimilarityGraph -> number -> list (list nat).
Variable mergeVectors : list (option Uint8Array) -> Uint8Array.

#[local] Abbreviation Props := (Props SimilarityGraph).
#[local] Abbreviation State := (State SimilarityGraph).
#[local] Abbreviation clusterResults :=
  (clusterResults SimilarityGraph edgeScores buildSimilarityGraph
     clusterByThreshold mergeVectors).
#[local] Abbreviation computeClusters :=
  (computeClusters SimilarityGraph clusterByThreshold mergeVectors).
#[local] Abbreviation buildClusters :=
  (buildClusters SimilarityGraph mergeVectors).
#[local] Abbreviation moveSlider :=
  (moveSlider SimilarityGraph edgeScores buildSimilarityGraph
     clusterByThreshold mergeVectors).
#[local] Abbreviation scanScores := (scanScores SimilarityGraph edgeScores).

(** ** What [clusterResults] leaves in [clusters] *)

Lemma clusters_computed (p : Props) (s : State) :
  clusters _ (fst (clusterResults p s))
  = computeClusters p
      (match simGraph _ s with
       | Some g => g
       | None => buildSimilarityGraph (vectors _ p)
       end)
      (sliderSim _ s).
Proof.
  unfold Clustering.clusterResults.
  destruct (simGraph _ s) as [g |]; [reflexivity |].
  now destruct (scanScores _).
Qed.

Lemma buildClusters_fields (p : Props) (ids : list (list nat)) :
  forall k,
  map indices (buildClusters p k ids) = ids
  /\ map clusterIndex (buildClusters p k ids) = seq k (length ids)
  /\ Forall (fun c =>
       score c = length (indices c)
       /\ mergedVector c
          = mergeVectors (map (fun i => nth_error (vectors _ p) i)
                              (indices c)))
       (buildClusters p k ids).
Proof.
  induction ids as [| c ids IH]; intros k; cbn; [repeat split; constructor |].
  destruct (IH (S k)) as (I & K & F).
  repeat split; [now rewrite I | now rewrite K |].
  constructor; [split; reflexivity | exact F].
Qed.

Lemma buildClusters_positions (p : Props) (ids : list (list nat)) :
  forall k,
  Forall (fun c =>
       (k <= clusterIndex c)%nat
       /\ nth_error ids (clusterIndex c - k) = Some (indices c))
       (buildClusters p k ids).
Proof.
  induction ids as [| c ids IH]; intros k; cbn [Clustering.buildClusters];
    constructor.
  - cbn [clusterIndex indices]. rewrite Nat.sub_diag. split; [lia | reflexivity].
  - eapply Forall_impl; [| exact (IH (S k))].
    intros d [L E]. split; [lia |].
    replace (clusterIndex d - k)%nat with (S (clusterIndex d - S k)) by lia.
    exact E.
Qed.

(** After [clusterResults], [clusters] holds one cluster for each group of
    [clusterByThreshold] that has at least [minDocsPerCluster] members and
    none for the others, largest first; each cluster's score is its number
    of members, its merged vector is [mergeVectors] of its members' vectors,
    and its [clusterIndex] is the position its own group had among the kept
    groups before the sort, so that the [clusterIndex] values are 0, 1, ...
    in some order. *)
Theorem clusters_are_the_kept_groups (p : Props) (s : State) :
  let g := match simGraph _ s with
           | Some g => g
           | None => buildSimilarityGraph (vectors _ p)
           end in
  let cs := clusters _ (fst (clusterResults p s)) in
  Permutation
    (filter (fun c => (minDocsPerCluster _ p <=? length_number c)%float)
            (clusterByThreshold g (sliderSim _ s)))
    (map indices cs)
  /\ StronglySorted
       (fun a b => (length (indices b) <= length (indices a))%nat) cs
  /\ Forall (fun c =>
       score c = length (indices c)
       /\ mergedVector c
          = mergeVectors (map (fun i => nth_error (vectors _ p) i)
                              (indices c))
       /\ (minDocsPerCluster _ p <=? length_number (indices c))%float = true)
       cs
  /\ Forall (fun c =>
       nth_error
         (filter (fun c => (minDocsPerCluster _ p <=? length_number c)%float)
                 (clusterByThreshold g (sliderSim _ s)))
         (clusterIndex c)
       = Some (indices c)) cs
  /\ Permutation (seq 0 (length cs)) (map clusterIndex cs).
Proof.
  intros g cs. subst cs. rewrite clusters_computed. fold g.
  unfold Clustering.computeClusters.
  set (ids := filter _ (clusterByThreshold g (sliderSim _ s))).
  destruct (buildClusters_fields p ids 0) as (I & K & F).
  pose proof (buildClusters_positions p ids 0) as Ps.
  destruct (sortByScore_perm_sorted (buildClusters p 0 ids)) as [P S].
  assert (Fs : Forall (fun c =>
       score c = length (indices c)
       /\ mergedVector c
          = mergeVectors (map (fun i => nth_error (vectors _ p) i)
                              (indices c))
       /\ (minDocsPerCluster _ p <=? length_number (indices c))%float = true)
       (buildClusters p 0 ids)).
  { apply Forall_forall. intros c Hc.
    destruct (proj1 (Forall_forall _ _) F c Hc) as [Sc Mv].
    repeat split; auto.
    assert (Hi : In (indices c) ids).
    { rewrite <- I. now apply in_map. }
    apply filter_In in Hi. apply Hi. }
  repeat split.
  - rewrite <- I at 1. now apply Permutation_map.
  - apply sorted_by_size; [exact S |].
    eapply Permutation_Forall; [exact P |].
    eapply Forall_impl; [| exact Fs]. cbn. tauto.
  - eapply Permutation_Forall; [exact P | exact Fs].
  - eapply Permutation_Forall; [exact P |].
    eapply Forall_impl; [| exact Ps].
    intros c [_ E]. now rewrite Nat.sub_0_r in E.
  - rewrite <- (Permutation_length P).
    pose proof (f_equal (@length _) I) as Ln. rewrite length_map in Ln.
    rewrite Ln, <- K. now apply Permutation_map.
Qed.

End WithLibrary.

End ClusteringMore.

(** * The order of numbers *)

Module NumberOrder.
Import JS.

Lemma SFcompare_refl (v : spec_float) :
  v <> S754_nan -> SFcompare v v = Some Eq.
Proof.
  destruct v as [s | s | | s m e]; cbn; try congruence.
  - intros _. now destruct s.
  - intros _. destruct s; rewrite Z.compare_refl;
      change (Pos.compare_cont Eq m m) with (Pos.compare m m);
      now rewrite Pos.compare_refl.
Qed.

Lemma SFcompare_antisym (v w : spec_float) :
  SFcompare w v = option_map CompOpp (SFcompare v w).
Proof.
  destruct v as [s | s | | s m e], w as [s' | s' | | s' m' e']; cbn;
    try reflexivity; try (destruct s; reflexivity);
    try (destruct s'; reflexivity); try (destruct s, s'; reflexivity).
  change (Pos.compare_cont Eq m m') with (Pos.compare m m').
  change (Pos.compare_cont Eq m' m) with (Pos.compare m' m).
  rewrite (Z.compare_antisym e e'), (Pos.compare_antisym m m').
  destruct s, s'; cbn; try reflexivity;
    destruct (e ?= e')%Z; cbn; try reflexivity;
    destruct (m ?= m')%positive; reflexivity.
Qed.

Lemma SFcompare_some (v w : spec_float) :
  v <> S754_nan -> w <> S754_nan -> exists c, SFcompare v w = Some c.
Proof.
  destruct v as [s | s | | s m e], w as [s' | s' | | s' m' e']; cbn;
    try congruence; eauto.
Qed.

Lemma SFleb_trans (u v w : spec_float) :
  SFleb u v = true -> SFleb v w = true -> SFleb u w = true.
Proof.
  unfold SFleb.
  destruct u as [s | s | | s m e], v as [s' | s' | | s' m' e'],
    w as [s'' | s'' | | s'' m'' e'']; cbn;
    try discriminate; try reflexivity;
    try (destruct s; cbn; try discriminate; try reflexivity);
    try (destruct s'; cbn; try discriminate; try reflexivity);
    try (destruct s''; cbn; try discriminate; try reflexivity);
    try (intros; assumption).
  all: change (Pos.compare_cont Eq m m') with (Pos.compare m m');
    change (Pos.compare_cont Eq m' m'') with (Pos.compare m' m'');
    change (Pos.compare_cont Eq m m'') with (Pos.compare m m'').
  all: destruct (Z.compare_spec e e'), (Z.compare_spec e' e''),
         (Z.compare_spec e e''); cbn; try discriminate; try reflexivity;
       try lia;
       destruct (Pos.compare_spec m m'), (Pos.compare_spec m' m''),
         (Pos.compare_spec m m''); cbn; try discriminate; try reflexivity;
       try lia.
Qed.

Lemma not_nan (v : number) : is_nan v = false <-> Prim2SF v <> S754_nan.
Proof.
  unfold is_nan. rewrite eqb_spec. unfold SFeqb. split.
  - intros H E. rewrite E in H. discriminate H.
  - intros N. now rewrite (SFcompare_refl _ N).
Qed.

Lemma leb_refl (v : number) : is_nan v = false -> (v <=? v)%float = true.
Proof.
  intros N%not_nan. rewrite leb_spec. unfold SFleb.
  now rewrite (SFcompare_refl _ N).
Qed.

Lemma ltb_leb (v w : number) :
  (v <? w)%float = true -> (v <=? w)%float = true.
Proof.
  rewrite ltb_spec, leb_spec. unfold SFltb, SFleb.
  now destruct (SFcompare _ _) as [[| |] |].
Qed.

Lemma not_ltb_leb (v w : number) :
  is_nan v = false -> is_nan w = false ->
  (v <? w)%float = false -> (w <=? v)%float = true.
Proof.
  intros Nv%not_nan Nw%not_nan. rewrite ltb_spec, leb_spec.
  unfold SFltb, SFleb. rewrite (SFcompare_antisym (Prim2SF v) (Prim2SF w)).
  destruct (SFcompare_some _ _ Nv Nw) as [c ->]. now destruct c.
Qed.

Lemma leb_trans (u v w : number) :
  (u <=? v)%float = true -> (v <=? w)%float = true ->
  (u <=? w)%float = true.
Proof. rewrite !leb_spec. apply SFleb_trans. Qed.

Lemma leb_not_nan (v w : number) :
  (v <=? w)%float = true -> is_nan v = false /\ is_nan w = false.
Proof.
  rewrite leb_spec, !not_nan. unfold SFleb.
  destruct (Prim2SF v), (Prim2SF w); cbn; try discriminate;
    split; discriminate.
Qed.

(** [Math.max] of two numbers that are not NaN is one of them and is below
    neither; [Math.min] is one of them and above neither. *)
Lemma Math_max_spec (a b : number) :
  is_nan a = false -> is_nan b = false ->
  (Math_max a b = a \/ Math_max a b = b)
  /\ (a <=? Math_max a b)%float = true
  /\ (b <=? Math_max a b)%float = true.
Proof.
  intros Na Nb. unfold Math_max. rewrite Na, Nb. cbn [orb].
  destruct (a <? b)%float eqn:L1.
  - auto using ltb_leb, leb_refl.
  - destruct (b <? a)%float eqn:L2.
    + auto using ltb_leb, leb_refl.
    + destruct (get_sign a); auto 6 using not_ltb_leb, leb_refl.
Qed.

Lemma Math_min_spec (a b : number) :
  is_nan a = false -> is_nan b = false ->
  (Math_min a b = a \/ Math_min a b = b)
  /\ (Math_min a b <=? a)%float = true
  /\ (Math_min a b <=? b)%float = true.
Proof.
  intros Na Nb. unfold Math_min. rewrite Na, Nb. cbn [orb].
  destruct (a <? b)%float eqn:L1.
  - auto using ltb_leb, leb_refl.
  - destruct (b <? a)%float eqn:L2.
    + auto using ltb_leb, leb_refl.
    + destruct (get_sign a); auto 6 using not_ltb_leb, leb_refl.
Qed.

End NumberOrder.

(** * Clustering: the slider *)

Module ClusteringBounds.
Import JS Clustering NumberOrder.

(** One step of the score scan, and the scan of a flat list of scores. *)
Lemma scan_flat (ls : list (list number)) (acc : number * number) :
  fold_left
    (fun acc cluster =>
       fold_left (fun '(mx, mn) sc => (Math_max sc mx, Math_min sc mn))
                 cluster acc)
    ls acc
  = fold_left (fun '(mx, mn) sc => (Math_max sc mx, Math_min sc mn))
              (concat ls) acc.
Proof.
  revert acc; induction ls as [| l ls IH]; intros acc; [reflexivity |].
  cbn [fold_left concat]. now rewrite fold_left_app, IH.
Qed.

Lemma scan_bounds (l : list number) :
  Forall (fun sc => is_nan sc = false) l ->
  forall mx mn, is_nan mx = false -> is_nan mn = false ->
  let r := fold_left (fun '(mx, mn) sc => (Math_max sc mx, Math_min sc mn))
                     l (mx, mn) in
  (mx <=? fst r)%float = true
  /\ (snd r <=? mn)%float = true
  /\ Forall (fun sc => (sc <=? fst r)%float = true
                       /\ (snd r <=? sc)%float = true) l.
Proof.
  induction 1 as [| sc l Nsc Nl IH]; intros mx mn Nmx Nmn; cbn zeta.
  - cbn. auto using leb_refl.
  - cbn [fold_left].
    destruct (Math_max_spec sc mx Nsc Nmx) as (_ & S1 & M1).
    destruct (Math_min_spec sc mn Nsc Nmn) as (_ & S2 & M2).
    destruct (IH (Math_max sc mx) (Math_min sc mn)) as (B1 & B2 & F).
    { apply (leb_not_nan _ _ S1). }
    { apply (leb_not_nan _ _ S2). }
    repeat split; eauto using leb_trans.
Qed.

Section WithLibrary.

Variable SimilarityGraph : Type.
Variable edgeScores : SimilarityGraph -> list (list number).
Variable buildSimilarityGraph : list Uint8Array -> SimilarityGraph.
Variable clusterByThreshold : SimilarityGraph -> number -> list (list nat).
Variable mergeVectors : list (option Uint8Array) -> Uint8Array.

#[local] Abbreviation Props := (Props SimilarityGraph).
#[local] Abbreviation State := (State SimilarityGraph).
#[local] Abbreviation clusterResults :=
  (clusterResults SimilarityGraph edgeScores buildSimilarityGraph
     clusterByThreshold mergeVectors).
#[local] Abbreviation computeClusters :=
  (computeClusters SimilarityGraph clusterByThreshold mergeVectors).
#[local] Abbreviation onMounted :=
  (onMounted SimilarityGraph edgeScores buildSimilarityGraph
     clusterByThreshold mergeVectors).
#[local] Abbreviation moveSlider :=
  (moveSlider SimilarityGraph edgeScores buildSimilarityGraph
     clusterByThreshold mergeVectors).
#[local] Abbreviation scanScores := (scanScores SimilarityGraph edgeScores).

Lemma mounted_bounds (p : Props) :
  maxFoundSim _ (fst (onMounted p (setup _ p)))
  = fst (scanScores (buildSimilarityGraph (vectors _ p)))
  /\ minFoundSim _ (fst (onMounted p (setup _ p)))
     = Math_max (minSliderSim _ p None)
                (snd (scanScores (buildSimilarityGraph (vectors _ p)))).
Proof.
  unfold Clustering.onMounted.
  rewrite (ClusteringFacts.first_run SimilarityGraph edgeScores
             buildSimilarityGraph clusterByThreshold mergeVectors p).
  split; reflexivity.
Qed.

(** When no edge score and no [minSliderSim()] is NaN, the bounds the first
    run gives the slider satisfy: [maxFoundSim] is at least 0 and at least
    every edge score; [minFoundSim] is at least [minSliderSim()], and it is
    either [minSliderSim()] itself or a number that is at most 1 and at most
    every edge score. *)
Theorem slider_bounds_bracket_scores (p : Props) :
  let g := buildSimilarityGraph (vectors _ p) in
  let s1 := fst (onMounted p (setup _ p)) in
  Forall (fun sc => is_nan sc = false) (concat (edgeScores g)) ->
  is_nan (minSliderSim _ p None) = false ->
  (0 <=? maxFoundSim _ s1)%float = true
  /\ Forall (fun sc => (sc <=? maxFoundSim _ s1)%float = true)
            (concat (edgeScores g))
  /\ (minSliderSim _ p None <=? minFoundSim _ s1)%float = true
  /\ (minFoundSim _ s1 = minSliderSim _ p None
      \/ ((minFoundSim _ s1 <=? 1)%float = true
          /\ Forall (fun sc => (minFoundSim _ s1 <=? sc)%float = true)
                    (concat (edgeScores g)))).
Proof.
  intros g s1 Ns Nm. subst s1.
  destruct (mounted_bounds p) as [-> ->]. fold g.
  unfold Clustering.scanScores. rewrite scan_flat.
  destruct (scan_bounds (concat (edgeScores g)) Ns 0%float 1%float
              eq_refl eq_refl) as (B1 & B2 & F).
  cbn zeta in *.
  match type of B1 with
  | context [fold_left ?f ?l ?a] => set (r := fold_left f l a) in *
  end.
  destruct (Math_max_spec (minSliderSim _ p None) (snd r) Nm
              (proj1 (leb_not_nan _ _ B2))) as (E & M1 & M2).
  repeat split; auto.
  - eapply Forall_impl; [| exact F]. cbn. tauto.
  - destruct E as [E | E]; [now left | right]. rewrite E.
    split; [exact B2 |]. eapply Forall_impl; [| exact F]. cbn. tauto.
Qed.

(** A graph without any edge score gives the slider [maxFoundSim] 0 and a
    [minFoundSim] of at least 1: the lower bound lies above the upper one. *)
Theorem slider_bounds_without_scores (p : Props) :
  let g := buildSimilarityGraph (vectors _ p) in
  let s1 := fst (onMounted p (setup _ p)) in
  concat (edgeScores g) = [] ->
  is_nan (minSliderSim _ p None) = false ->
  maxFoundSim _ s1 = 0%float
  /\ minFoundSim _ s1 = Math_max (minSliderSim _ p None) 1%float
  /\ (1 <=? minFoundSim _ s1)%float = true
  /\ (maxFoundSim _ s1 <? minFoundSim _ s1)%float = true.
Proof.
  intros g s1 E Nm. subst s1.
  destruct (mounted_bounds p) as [-> ->]. fold g.
  unfold Clustering.scanScores. rewrite scan_flat, E. cbn [fold_left fst snd].
  destruct (Math_max_spec (minSliderSim _ p None) 1%float Nm eq_refl)
    as (_ & _ & M).
  repeat split; auto.
  rewrite ltb_spec. rewrite leb_spec in M.
  change (Prim2SF 1%float)
    with (S754_finite false 4503599627370496 (-52)) in M.
  change (Prim2SF 0%float) with (S754_zero false).
  unfold SFltb. unfold SFleb in M.
  destruct (Prim2SF (Math_max (minSliderSim _ p None) 1%float))
    as [s | s | | s m e]; cbn in *; try discriminate;
    destruct s; cbn in *; try discriminate; reflexivity.
Qed.

(** Moving the slider to a value [v] other than the initial [minClusterSim]
    reclusters at [v]; moving it back to [minClusterSim] does not
    recluster: the slider then shows [minClusterSim] while [clusters] still
    holds the clusters computed at [v]. *)
Theorem slider_back_at_initial_value_is_stale (p : Props)
    (g : SimilarityGraph) (s : State) (v : number) :
  simGraph _ s = Some g ->
  strict_neq v (minClusterSim _ p) = true ->
  Leibniz.eqb v (sliderSim _ s) = false ->
  strict_neq (minClusterSim _ p) (minClusterSim _ p) = false ->
  let s1 := fst (moveSlider p v s) in
  let o2 := moveSlider p (minClusterSim _ p) s1 in
  clusters _ s1 = computeClusters p g v
  /\ sliderSim _ (fst o2) = minClusterSim _ p
  /\ clusters _ (fst o2) = computeClusters p g v
  /\ snd o2 = [].
Proof.
  intros G Nv Lv N0 s1 o2. subst o2 s1.
  assert (E1 : moveSlider p v s
               = (reclustered _ clusterByThreshold mergeVectors p g
                    {| sliderSim := v;
                       minFoundSim := minFoundSim _ s;
                       maxFoundSim := maxFoundSim _ s;
                       clusters := clusters _ s;
                       simGraph := simGraph _ s |}, [])).
  { unfold Clustering.moveSlider. rewrite Lv.
    unfold sliderWatcher. cbn [sliderSim]. rewrite Nv.
    apply (ClusteringFacts.later_run SimilarityGraph edgeScores
             buildSimilarityGraph clusterByThreshold mergeVectors p g).
    exact G. }
  rewrite E1. cbn [fst]. unfold Clustering.moveSlider, reclustered.
  cbn [sliderSim].
  destruct (Leibniz.eqb (minClusterSim _ p) v) eqn:L.
  - apply Leibniz.eqb_spec in L. rewrite <- L in Nv. congruence.
  - unfold sliderWatcher. cbn [sliderSim]. rewrite N0. cbn. auto.
Qed.

End WithLibrary.

(** A small instance, for the examples: a graph is its list of score lists. *)
Definition exampleProps (scores : list (list number)) : Props (list (list number)) :=
  {| vectors := [];
     minClusterSim := 0.7%float;
     minDocsPerCluster := 1%float;
     minSliderSim := fun _ => 0.6%float |}.

Lemma slider_bounds_bracket_scores_witness :
  let scores := [[0.9%float; 0.75%float]; [0.62%float]] in
  let p := exampleProps scores in
  let s1 := fst (onMounted _ (fun g => g) (fun _ => scores)
                   (fun _ _ => []) (fun _ => []) p (setup _ p)) in
  (0 <=? maxFoundSim _ s1)%float = true
  /\ Forall (fun sc => (sc <=? maxFoundSim _ s1)%float = true)
            (concat scores)
  /\ (minSliderSim _ p None <=? minFoundSim _ s1)%float = true
  /\ (minFoundSim _ s1 = minSliderSim _ p None
      \/ ((minFoundSim _ s1 <=? 1)%float = true
          /\ Forall (fun sc => (minFoundSim _ s1 <=? sc)%float = true)
                    (concat scores))).
Proof.
  apply (slider_bounds_bracket_scores (list (list number)) (fun g => g)
           (fun _ => [[0.9%float; 0.75%float]; [0.62%float]])
           (fun _ _ => []) (fun _ => [])
           (exampleProps [[0.9%float; 0.75%float]; [0.62%float]])).
  - repeat constructor.
  - reflexivity.
Defined.

Lemma slider_bounds_without_scores_witness :
  let p := exampleProps [] in
  let s1 := fst (onMounted _ (fun g => g) (fun _ => [[]; []])
                   (fun _ _ => []) (fun _ => []) p (setup _ p)) in
  maxFoundSim _ s1 = 0%float
  /\ minFoundSim _ s1 = Math_max (minSliderSim _ p None) 1%float
  /\ (1 <=? minFoundSim _ s1)%float = true
  /\ (maxFoundSim _ s1 <? minFoundSim _ s1)%float = true.
Proof.
  apply (slider_bounds_without_scores (list (list number)) (fun g => g)
           (fun _ => [[]; []]) (fun _ _ => []) (fun _ => [])
           (exampleProps [])).
  - reflexivity.
  - reflexivity.
Defined.

Lemma slider_back_at_initial_value_is_stale_witness :
  let p := exampleProps [] in
  let s := fst (onMounted _ (fun g => g) (fun _ => [])
                  (fun _ _ => [[0%nat; 1%nat]]) (fun _ => []) p (setup _ p)) in
  let s1 := fst (moveSlider _ (fun g => g) (fun _ => [])
                   (fun _ _ => [[0%nat; 1%nat]]) (fun _ => []) p 0.8%float s) in
  let o2 := moveSlider _ (fun g => g) (fun _ => [])
              (fun _ _ => [[0%nat; 1%nat]]) (fun _ => []) p
              (minClusterSim _ p) s1 in
  clusters _ s1
  = computeClusters _ (fun _ _ => [[0%nat; 1%nat]]) (fun _ => []) p []
      0.8%float
  /\ sliderSim _ (fst o2) = minClusterSim _ p
  /\ clusters _ (fst o2)
     = computeClusters _ (fun _ _ => [[0%nat; 1%nat]]) (fun _ => []) p []
         0.8%float
  /\ snd o2 = [].
Proof.
  apply (slider_back_at_initial_value_is_stale (list (list number))
           (fun g => g) (fun _ => []) (fun _ _ => [[0%nat; 1%nat]])
           (fun _ => []) (exampleProps []) []).
  - reflexivity.
  - reflexivity.
  - reflexivity.
  - reflexivity.
Defined.

End ClusteringBounds.

(** * The FoamTree data object and the selection listener *)

Module FoamDataFacts.
Import JS Clustering FoamData NumberOrder.
Import Ascii String.

(** ** Identifiers *)

Lemma index_string_inj (n m : nat) :
  index_string n = index_string m -> n = m.
Proof.
  unfold index_string. intros E.
  apply DecimalNat.Unsigned.to_uint_inj.
  pose proof (DecimalString.NilEmpty.usu (Nat.to_uint n)) as U.
  rewrite E, DecimalString.NilEmpty.usu in U. now injection U.
Qed.

Fixpoint has_dash (t : string) : bool :=
  match t with
  | EmptyString => false
  | String c t' => Ascii.eqb c "-"%char || has_dash t'
  end.

Lemma digits_have_no_dash (d : Decimal.uint) :
  has_dash (DecimalString.NilEmpty.string_of_uint d) = false.
Proof. induction d; cbn; auto. Qed.

Lemma index_string_no_dash (n : nat) : has_dash (index_string n) = false.
Proof. apply digits_have_no_dash. Qed.

Lemma has_dash_append (t r : string) :
  has_dash (append t (String "-" r)) = true.
Proof.
  induction t as [| c t IH]; cbn [append has_dash]; [reflexivity |].
  now rewrite IH, orb_true_r.
Qed.

Lemma append_cancel (q t t' : string) :
  append q t = append q t' -> t = t'.
Proof.
  induction q as [| c q IH]; cbn [append]; [auto |].
  intros E. injection E as E. auto.
Qed.

Lemma append_dash_inj (t t' r r' : string) :
  has_dash t = false -> has_dash t' = false ->
  append t (String "-" r) = append t' (String "-" r') ->
  t = t' /\ r = r'.
Proof.
  revert t'. induction t as [| c t IH]; intros [| c' t'];
    cbn [append has_dash]; intros H H' E.
  - injection E as E. auto.
  - injection E as Ec E. subst c'. discriminate H'.
  - injection E as Ec E. subst c. discriminate H.
  - injection E as Ec E. subst c'.
    apply orb_false_iff in H as [_ H]. apply orb_false_iff in H' as [_ H'].
    destruct (IH t' H H' E) as [-> ->]. auto.
Qed.

(** The two shapes of [id]. *)
Inductive Key :=
| topKey (i : nat)
| itemKey (i n : nat).

Definition render (k : Key) : string :=
  match k with
  | topKey i => append "cluster-" (index_string i)
  | itemKey i n =>
      append "cluster-"
        (append (index_string i) (append "-item-" (index_string n)))
  end.

Definition keyIndex (k : Key) : nat :=
  match k with topKey i => i | itemKey i _ => i end.

Lemma render_inj (k k' : Key) : render k = render k' -> k = k'.
Proof.
  destruct k as [i | i n], k' as [j | j m]; cbn [render];
    intros E%append_cancel.
  - now rewrite (index_string_inj _ _ E).
  - pose proof (index_string_no_dash i) as D.
    rewrite E in D. cbn [append] in D.
    now rewrite has_dash_append in D.
  - pose proof (index_string_no_dash j) as D.
    rewrite <- E in D. cbn [append] in D.
    now rewrite has_dash_append in D.
  - cbn [append] in E.
    apply append_dash_inj in E as [Ei En];
      auto using index_string_no_dash.
    apply (append_cancel "item-") in En.
    now rewrite (index_string_inj _ _ Ei), (index_string_inj _ _ En).
Qed.

Lemma NoDup_map_injective {A B : Type} (f : A -> B) (xs : list A) :
  (forall u v, f u = f v -> u = v) -> NoDup xs -> NoDup (map f xs).
Proof.
  intros I. induction 1 as [| u xs N Nxs IH]; cbn [map]; constructor; auto.
  intros (v & E & Hv)%in_map_iff. apply I in E. now subst v.
Qed.

Section WithLabellers.

Variable clusterLabeller : Cluster -> string.
Variable itemLabeller : nat -> string.

#[local] Abbreviation buildItems := (buildItems itemLabeller).
#[local] Abbreviation buildGroup := (buildGroup clusterLabeller itemLabeller).
#[local] Abbreviation buildGroups :=
  (buildGroups clusterLabeller itemLabeller).
#[local] Abbreviation buildFoamData :=
  (buildFoamData clusterLabeller itemLabeller).

Definition groupKeys (i : nat) (c : Cluster) : list Key :=
  topKey i
  :: (if (1 <? List.length (indices c))%nat
      then map (itemKey i) (seq 0 (List.length (indices c))) else []).

Fixpoint keysFrom (i : nat) (cs : list Cluster) : list Key :=
  match cs with
  | [] => []
  | c :: rest => groupKeys i c ++ keysFrom (S i) rest
  end.

Lemma buildItems_fields (i : nat) (idx : list nat) :
  forall n,
  map id (buildItems i n idx)
  = map (fun m => render (itemKey i m)) (seq n (List.length idx))
  /\ map vectorIndex (buildItems i n idx) = map Some idx
  /\ List.length (buildItems i n idx) = List.length idx
  /\ Forall (fun g => groups g = None /\ clusterIndex g = Some i)
            (buildItems i n idx).
Proof.
  induction idx as [| v idx IH]; intros n; cbn;
    [repeat split; constructor |].
  destruct (IH (S n)) as (I & V & L & F).
  repeat split; [now rewrite I | now rewrite V | now rewrite L |].
  constructor; [split; reflexivity | exact F].
Qed.

Lemma group_ids (i : nat) (c : Cluster) :
  id (buildGroup i c) :: map id (children (buildGroup i c))
  = map render (groupKeys i c).
Proof.
  unfold groupKeys, children, FoamData.buildGroup. cbn [id groups map].
  destruct (1 <? List.length (indices c))%nat; [| reflexivity].
  f_equal. rewrite (proj1 (buildItems_fields i (indices c) 0)).
  now rewrite map_map.
Qed.

Lemma all_ids_keys (cs : list Cluster) :
  forall i, all_ids (buildGroups i cs) = map render (keysFrom i cs).
Proof.
  unfold all_ids.
  induction cs as [| c cs IH]; intros i; [reflexivity |].
  cbn [FoamData.buildGroups flat_map keysFrom].
  rewrite map_app, <- IH, <- group_ids. reflexivity.
Qed.

Lemma groupKeys_index (i : nat) (c : Cluster) (k : Key) :
  In k (groupKeys i c) -> keyIndex k = i.
Proof.
  unfold groupKeys. intros [<- | I]; [reflexivity |].
  destruct (1 <? _)%nat; [| destruct I].
  apply in_map_iff in I as (n & <- & _). reflexivity.
Qed.

Lemma keysFrom_index (cs : list Cluster) :
  forall i k, In k (keysFrom i cs) -> (i <= keyIndex k)%nat.
Proof.
  induction cs as [| c cs IH]; intros i k; cbn [keysFrom]; [intros [] |].
  intros [I | I]%in_app_iff.
  - rewrite (groupKeys_index i c k I). lia.
  - apply IH in I. lia.
Qed.

Lemma groupKeys_NoDup (i : nat) (c : Cluster) : NoDup (groupKeys i c).
Proof.
  unfold groupKeys. constructor.
  - destruct (1 <? _)%nat; [| intros []].
    intros (n & E & _)%in_map_iff. discriminate E.
  - destruct (1 <? _)%nat; [| constructor].
    apply NoDup_map_injective; [| apply seq_NoDup].
    intros u v E. now injection E.
Qed.

Lemma keysFrom_NoDup (cs : list Cluster) : forall i, NoDup (keysFrom i cs).
Proof.
  induction cs as [| c cs IH]; intros i; cbn [keysFrom]; [constructor |].
  apply NoDup_app; [apply groupKeys_NoDup | apply IH |].
  intros k I1 I2. apply groupKeys_index in I1. apply keysFrom_index in I2.
  lia.
Qed.

(** No two groups of the data object, at either level, share an [id]. *)
Theorem foam_ids_are_distinct (clusters : list Cluster) :
  NoDup (all_ids (buildFoamData clusters)).
Proof.
  unfold FoamData.buildFoamData. rewrite all_ids_keys.
  apply NoDup_map_injective; [apply render_inj | apply keysFrom_NoDup].
Qed.

(** ** The groups, one per cluster *)

Lemma buildGroups_nth (cs : list Cluster) :
  forall k j,
  nth_error (buildGroups k cs) j
  = option_map (buildGroup (k + j)) (nth_error cs j).
Proof.
  induction cs as [| c cs IH]; intros k [| j];
    cbn [FoamData.buildGroups nth_error option_map]; try reflexivity.
  - now rewrite Nat.add_0_r.
  - rewrite IH. now rewrite Nat.add_succ_r.
Qed.

Lemma buildFoamData_nth (cs : list Cluster) (j : nat) :
  nth_error (buildFoamData cs) j = option_map (buildGroup j) (nth_error cs j).
Proof. apply (buildGroups_nth cs 0 j). Qed.

Lemma emitted_members (j : nat) (c : Cluster) :
  match groups (buildGroup j c) with
  | Some gs =>
      if (1 <? List.length gs)%nat
      then clusterClicked (clusterIndex (buildGroup j c))
             (label (buildGroup j c)) (map vectorIndex gs)
      else clusterClicked (clusterIndex (buildGroup j c))
             (label (buildGroup j c)) [docID (buildGroup j c)]
  | None =>
      clusterClicked (clusterIndex (buildGroup j c))
        (label (buildGroup j c)) [docID (buildGroup j c)]
  end
  = clusterClicked (Some j) (clusterLabeller c)
      (match indices c with
       | [] => [None]
       | _ :: _ => map Some (indices c)
       end).
Proof.
  unfold FoamData.buildGroup.
  cbn [groups clusterIndex label docID].
  destruct (buildItems_fields j (indices c) 0) as (_ & V & L & _).
  destruct (Nat.ltb_spec 1 (List.length (indices c))) as [G | G].
  - rewrite L. destruct (Nat.ltb_spec 1 (List.length (indices c))); [| lia].
    rewrite V. destruct (indices c); [cbn in G; lia | reflexivity].
  - cbn [List.length Nat.ltb Nat.leb].
    destruct (indices c) as [| v [| w idx]]; cbn in G; try lia; reflexivity.
Qed.

(** Selecting the group that [buildFoamData] made for the cluster at
    position [j], while another group or none is exposed, exposes it and
    then emits [clusterClicked] with the position [j], the cluster's label
    and exactly the cluster's member indices, in their order; for a cluster
    without members the list holds the one [undefined] read from
    [indices[0]]. *)
Theorem selection_emits_cluster_members (cs : list Cluster) (j : nat)
    (c : Cluster) (exposed : option (list Group)) (rest : list Group) :
  nth_error cs j = Some c ->
  exists grp,
    nth_error (buildFoamData cs) j = Some grp
    /\ id grp = append "cluster-" (index_string j)
    /\ (match exposed with
        | Some (current :: _) => id current <> id grp
        | _ => True
        end ->
        onGroupSelectionChanged true exposed (grp :: rest)
        = exposeThenEmit (id grp)
            (clusterClicked (Some j) (clusterLabeller c)
               (match indices c with
                | [] => [None]
                | _ :: _ => map Some (indices c)
                end))).
Proof.
  intros N. exists (buildGroup j c).
  rewrite buildFoamData_nth, N. repeat split.
  intros D. unfold onGroupSelectionChanged. cbn [negb].
  assert (S : match exposed with
              | Some (current :: _) =>
                  String.eqb (id (buildGroup j c)) (id current)
              | _ => false
              end = false).
  { destruct exposed as [[| current e] |]; try reflexivity.
    apply String.eqb_neq. congruence. }
  rewrite S. f_equal. apply emitted_members.
Qed.

(** While the group of position [i] is exposed, selecting the group of
    position [j] clears the exposure, and emits nothing, exactly when
    [i = j]. *)
Theorem reselecting_clears_exposure (cs : list Cluster) (i j : nat)
    (gi gj : Group) (others rest : list Group) :
  nth_error (buildFoamData cs) i = Some gi ->
  nth_error (buildFoamData cs) j = Some gj ->
  onGroupSelectionChanged true (Some (gi :: others)) (gj :: rest) = exposeNone
  <-> i = j.
Proof.
  rewrite !buildFoamData_nth.
  destruct (nth_error cs i) as [ci |]; [| discriminate].
  destruct (nth_error cs j) as [cj |]; [| discriminate].
  cbn [option_map]. intros [= <-] [= <-].
  unfold onGroupSelectionChanged. cbn [negb].
  destruct (String.eqb_spec (id (buildGroup j cj)) (id (buildGroup i ci)))
    as [E | E].
  - split; [intros _ | reflexivity].
    apply append_cancel in E. symmetry. now apply index_string_inj.
  - split; [discriminate |]. intros ->. now destruct E.
Qed.

(** ** The colour decorator *)

(** The decorator leaves the group of a cluster with two or more members as
    it is, dims the label of the group of a cluster with at most one member,
    and dims the label of every child group as well. *)
Theorem decorator_dims_childless_groups (cs : list Cluster) (j : nat)
    (c : Cluster) (vars : Vars) :
  nth_error cs j = Some c ->
  exists grp,
    nth_error (buildFoamData cs) j = Some grp
    /\ ((2 <= List.length (indices c))%nat ->
        groupColorDecorator grp vars = vars)
    /\ ((List.length (indices c) <= 1)%nat ->
        labelColor (groupColorDecorator grp vars)
        = Some "rgba(0,0,0,0.55)"%string)
    /\ Forall (fun item =>
                 labelColor (groupColorDecorator item vars)
                 = Some "rgba(0,0,0,0.55)"%string)
              (children grp).
Proof.
  intros N. exists (buildGroup j c).
  rewrite buildFoamData_nth, N.
  destruct (buildItems_fields j (indices c) 0) as (_ & _ & L & F).
  unfold groupColorDecorator, children, FoamData.buildGroup.
  cbn [groups clusterIndex].
  repeat split.
  - intros G. destruct (Nat.ltb_spec 1 (List.length (indices c))); [| lia].
    rewrite L. destruct (Nat.eqb_spec (List.length (indices c)) 0); [lia |].
    reflexivity.
  - intros G. destruct (Nat.ltb_spec 1 (List.length (indices c))); [lia |].
    reflexivity.
  - destruct (1 <? List.length (indices c))%nat; [| constructor].
    eapply Forall_impl; [| exact F].
    intros item [-> ->]. reflexivity.
Qed.


End WithLabellers.

Lemma selection_emits_cluster_members_witness :
  exists grp,
    nth_error (buildFoamData exampleClusterLabeller exampleItemLabeller
                 exampleClusters) 0 = Some grp
    /\ id grp = append "cluster-" (index_string 0)
    /\ (True ->
        onGroupSelectionChanged true None [grp]
        = exposeThenEmit (id grp)
            (clusterClicked (Some 0%nat) "Cluster 1"
               [Some 3%nat; Some 5%nat])).
Proof.
  apply (selection_emits_cluster_members exampleClusterLabeller
           exampleItemLabeller exampleClusters 0
           {| Clustering.clusterIndex := 1; indices := [3; 5]%nat;
              mergedVector := []; score := 2 |} None []).
  reflexivity.
Defined.

Lemma reselecting_clears_exposure_witness :
  onGroupSelectionChanged true
    (Some [buildGroup exampleClusterLabeller exampleItemLabeller 1
             {| Clustering.clusterIndex := 0; indices := [4]%nat;
                mergedVector := []; score := 1 |}])
    [buildGroup exampleClusterLabeller exampleItemLabeller 1
       {| Clustering.clusterIndex := 0; indices := [4]%nat;
          mergedVector := []; score := 1 |}]
  = exposeNone
  <-> 1%nat = 1%nat.
Proof.
  apply (reselecting_clears_exposure exampleClusterLabeller
           exampleItemLabeller exampleClusters 1 1); reflexivity.
Defined.

Lemma decorator_dims_childless_groups_witness :
  let vars := {| labelColor := None; groupColor := None |} in
  exists grp,
    nth_error (buildFoamData exampleClusterLabeller exampleItemLabeller
                 exampleClusters) 0 = Some grp
    /\ ((2 <= 2)%nat -> groupColorDecorator grp vars = vars)
    /\ ((2 <= 1)%nat ->
        labelColor (groupColorDecorator grp vars)
        = Some "rgba(0,0,0,0.55)"%string)
    /\ Forall (fun item =>
                 labelColor (groupColorDecorator item vars)
                 = Some "rgba(0,0,0,0.55)"%string)
              (children grp).
Proof.
  apply (decorator_dims_childless_groups exampleClusterLabeller
           exampleItemLabeller exampleClusters 0
           {| Clustering.clusterIndex := 1; indices := [3; 5]%nat;
              mergedVector := []; score := 2 |}).
  reflexivity.
Defined.


End FoamDataFacts.
